(** * update_licenses.py: the licence-header rewriter

    A shallow embedding of [update_licenses.py].  The script walks the
    tree under the current directory, keeps the [.ts], [.tsx], [.js] and
    [.jsx] entries whose path contains none of a fixed list of substrings,
    and rewrites the first MIT-style header comment of every such file that
    contains the phrase "Permission is hereby granted".

    Text is modelled as Python has it: a [str] is a sequence of Unicode
    code points.  The regular expression is embedded as a syntax tree and
    run by a backtracking matcher that tries the alternatives in the order
    of Python's [re] module.  Files live in a store indexed by path; the
    operations on it produce a trace of the files opened and of the lines
    printed. *)

From Stdlib Require Import ZArith List Bool Ascii String Lia Arith DecimalString.
Import ListNotations.

Local Open Scope Z_scope.

(** ** Text *)

Module Text.

(** A Python [str]: the list of its code points. *)
Definition str := list Z.

Definition ord (a : ascii) : Z := Z.of_N (N_of_ascii a).

(** The [str] of an ASCII literal of the source. *)
Definition text (x : string) : str := map ord (list_ascii_of_string x).

Definition LF : Z := 10.
Definition CR : Z := 13.
Definition QUOTE : Z := 34.

Fixpoint str_eqb (a b : str) : bool :=
  match a, b with
  | [], [] => true
  | x :: a', y :: b' => (x =? y) && str_eqb a' b'
  | _, _ => false
  end.

(** [startswith sub x]: [x.startswith(sub)]. *)
Fixpoint startswith (sub x : str) : bool :=
  match sub, x with
  | [], _ => true
  | _ :: _, [] => false
  | c :: sub', d :: x' => (c =? d) && startswith sub' x'
  end.

(** [contains sub x]: the Python test [sub in x]. *)
Fixpoint contains (sub x : str) : bool :=
  match x with
  | [] => startswith sub []
  | _ :: x' => startswith sub x || contains sub x'
  end.

(** [endswith sub x]: [x.endswith(sub)]. *)
Definition endswith (sub x : str) : bool :=
  startswith (rev sub) (rev x).

(** [join_lines ls]: ["\n".join(ls)]. *)
Fixpoint join_lines (ls : list str) : str :=
  match ls with
  | [] => []
  | [l] => l
  | l :: ls' => l ++ LF :: join_lines ls'
  end.

(** [str(n)] for a non-negative [int]. *)
Definition str_of_nat (n : nat) : str :=
  text (NilEmpty.string_of_uint (Nat.to_uint n)).

End Text.
Import Text.

(** ** Regular expressions, as [re] runs them *)

Module Re.

(** [Py_UNICODE_ISSPACE]: what [\s] matches in a [str] pattern. *)
Definition isspace (c : Z) : bool :=
  ((9 <=? c) && (c <=? 13)) || ((28 <=? c) && (c <=? 32)) ||
  (c =? 133) || (c =? 160) || (c =? 5760) ||
  ((8192 <=? c) && (c <=? 8202)) || (c =? 8232) || (c =? 8233) ||
  (c =? 8239) || (c =? 8287) || (c =? 12288).

(** The first code point of every run of ten decimal digits (Unicode
    category Nd, Unicode 14.0). *)
Definition decimal_zeros : list Z :=
  [ 0x30; 0x660; 0x6F0; 0x7C0; 0x966; 0x9E6; 0xA66; 0xAE6; 0xB66; 0xBE6;
    0xC66; 0xCE6; 0xD66; 0xDE6; 0xE50; 0xED0; 0xF20; 0x1040; 0x1090;
    0x17E0; 0x1810; 0x1946; 0x19D0; 0x1A80; 0x1A90; 0x1B50; 0x1BB0;
    0x1C40; 0x1C50; 0xA620; 0xA8D0; 0xA900; 0xA9D0; 0xA9F0; 0xAA50;
    0xABF0; 0xFF10; 0x104A0; 0x10D30; 0x11066; 0x110F0; 0x11136;
    0x111D0; 0x112F0; 0x11450; 0x114D0; 0x11650; 0x116C0; 0x11730;
    0x118E0; 0x11950; 0x11C50; 0x11D50; 0x11DA0; 0x16A60; 0x16AC0;
    0x16B50; 0x1D7CE; 0x1D7D8; 0x1D7E2; 0x1D7EC; 0x1D7F6; 0x1E140;
    0x1E2F0; 0x1E950; 0x1FBF0 ].

(** [Py_UNICODE_ISDECIMAL]: what [\d] matches in a [str] pattern. *)
Definition isdecimal (c : Z) : bool :=
  existsb (fun z => (z <=? c) && (c <=? z + 9)) decimal_zeros.

(** [.] under [re.DOTALL]. *)
Definition anychar (_ : Z) : bool := true.

(** The constructs the pattern of the script is made of.  [Repeat lo hi
    greedy r] is [r{lo,hi}], with [hi = None] for no upper bound, and its
    lazy form [r{lo,hi}?] when [greedy] is [false]. *)
Inductive regex : Type :=
| Chr (c : Z)
| Cls (p : Z -> bool)
| Eps
| Seq (r1 r2 : regex)
| Group (r : regex)
| Repeat (lo : nat) (hi : option nat) (greedy : bool) (r : regex).

(** The regular expressions of a list, one after the other. *)
Definition cat (rs : list regex) : regex := fold_right Seq Eps rs.

(** A literal run of characters of the pattern. *)
Definition lit (x : string) : regex := cat (map Chr (text x)).

Definition star (r : regex) : regex := Repeat 0 None true r.
Definition lazy_star (r : regex) : regex := Repeat 0 None false r.

(** A matcher takes the text at the current position and a continuation
    for the rest of the pattern; it answers with the text left after the
    whole match, or [None]. *)
Definition matcher := str -> (str -> option str) -> option str.

Definition orelse (a : option str) (b : unit -> option str) : option str :=
  match a with
  | Some x => Some x
  | None => b tt
  end.

Definition hi_pred (hi : option nat) : option nat :=
  match hi with
  | Some h => Some (Nat.pred h)
  | None => None
  end.

(** The loop of a repetition.  The first [lo] rounds are compulsory; after
    them a greedy loop tries one more round before it tries the rest of the
    pattern, a lazy loop the other way round.  [fuel] bounds the number of
    rounds: a round that reads a character can happen at most once per
    character of the text, and the bodies that the pattern of the script
    repeats all read one. *)
Fixpoint rep (body : matcher) (lo : nat) (hi : option nat) (greedy : bool)
    (fuel : nat) (x : str) (k : str -> option str) : option str :=
  match fuel with
  | O => None
  | S fuel' =>
      let again :=
        fun _ : unit =>
          body x (fun x' => rep body (Nat.pred lo) (hi_pred hi) greedy fuel' x' k) in
      match lo with
      | S _ => again tt
      | O =>
          match hi with
          | Some O => k x
          | _ => if greedy then orelse (again tt) (fun _ => k x)
                 else orelse (k x) again
          end
      end
  end.

Fixpoint run (r : regex) : matcher :=
  fun x k =>
    match r with
    | Chr c =>
        match x with
        | d :: x' => if d =? c then k x' else None
        | [] => None
        end
    | Cls p =>
        match x with
        | d :: x' => if p d then k x' else None
        | [] => None
        end
    | Eps => k x
    | Seq r1 r2 => run r1 x (fun x' => run r2 x' k)
    | Group r1 => run r1 x k
    | Repeat lo hi greedy r1 =>
        rep (run r1) lo hi greedy (lo + S (List.length x))%nat x k
    end.

(** A regular expression that reads at least one character whenever it
    matches, by its form. *)
Fixpoint reads_one (r : regex) : bool :=
  match r with
  | Chr _ | Cls _ => true
  | Eps => false
  | Seq r1 r2 => reads_one r1 || reads_one r2
  | Group r1 => reads_one r1
  | Repeat _ _ _ _ => false
  end.

(** Every body that the regular expression repeats reads a character. *)
Fixpoint repeats_read (r : regex) : bool :=
  match r with
  | Chr _ | Cls _ | Eps => true
  | Seq r1 r2 => repeats_read r1 && repeats_read r2
  | Group r1 => repeats_read r1
  | Repeat _ _ _ r1 => reads_one r1 && repeats_read r1
  end.

(** [pattern.match(x)]: a match that starts at the first character of [x];
    the answer is the text after the match. *)
Definition match_here (r : regex) (x : str) : option str := run r x Some.

(** [pattern.search(x)]: the leftmost match, as the text before it and the
    text after it. *)
Fixpoint search (r : regex) (x : str) : option (str * str) :=
  match match_here r x with
  | Some rest => Some ([], rest)
  | None =>
      match x with
      | [] => None
      | c :: x' =>
          match search r x' with
          | Some (before, rest) => Some (c :: before, rest)
          | None => None
          end
      end
  end.

(** [pattern.sub(repl, x, count=1)] for a replacement without backslash:
    the leftmost match is replaced, the text around it is kept. *)
Definition sub_first (r : regex) (repl x : str) : str :=
  match search r x with
  | Some (before, rest) => before ++ repl ++ rest
  | None => x
  end.

End Re.
Import Re.

(** ** The constants of the script *)

Definition PROPRIETARY_HEADER : str :=
  join_lines
    [ text "/**";
      text " * Copyright (c) 2025 Philip L. Giacalone. All Rights Reserved.";
      text " *";
      text " * This software and associated documentation files (the "
        ++ QUOTE :: text "Software" ++ QUOTE :: text ") are the";
      text " * proprietary and confidential property of Philip L. Giacalone.";
      text " *";
      text " * Unauthorized copying, modification, distribution, or use of this Software,";
      text " * via any medium, is strictly prohibited and may be subject to civil and";
      text " * criminal penalties.";
      text " *";
      text " * The Software is protected by copyright laws and international copyright";
      text " * treaties, as well as other intellectual property laws and treaties.";
      text " */" ].

(** [\s*] and [\n]. *)
Definition ws : regex := star (Cls isspace).
Definition nl : regex := Chr LF.

(** The pattern, compiled with [re.MULTILINE | re.DOTALL]; it has no [^]
    and no [$], so only [re.DOTALL] shows.  Its three lines are

      /\*\*\s*\n\s*\*\s*Copyright \(c\) \d{4} Philip L\. Giacalone\s*\n\s*\*\s*\n
      (\s*\*.*?\n)*?
      \s*\*/\s*\n                                                        *)

Definition MIT_LICENSE_PATTERN : regex :=
  cat [ lit "/**"; ws; nl; ws; lit "*"; ws; lit "Copyright (c) ";
        Repeat 4 (Some 4%nat) true (Cls isdecimal);
        lit " Philip L. Giacalone"; ws; nl; ws; lit "*"; ws; nl;
        lazy_star (Group (cat [ ws; lit "*"; lazy_star (Cls anychar); nl ]));
        ws; lit "*/"; ws; nl ].

Definition SIGNATURE : str := text "Permission is hereby granted".

(** The replacement handed to [sub]: [PROPRIETARY_HEADER + '\n\n']. *)
Definition REPLACEMENT : str := PROPRIETARY_HEADER ++ [LF; LF].

(** ** Files, and the effects of the script *)

Module Fs.

(** [str(filepath)] of a [pathlib.Path] below the root. *)
Definition path := str.

Inductive kind : Type := Regular | Directory | Special.

(** How writing a file goes wrong, when it does.  [open(filepath, 'w')]
    either raises and leaves the file alone, or truncates the file; after
    that [f.write] (or the closing of the file) may still raise, when only
    the first [written] characters have reached the disk. *)
Inductive write_fault : Type :=
| NoFault
| OpenFault (e : str)
| IOFault (e : str) (written : nat).

(** A directory entry.  [data] is the content as it is stored, decoded
    from UTF-8 and with the line endings it has on disk; decoding and
    encoding are inverse to each other on the files that decode, so that
    two files hold the same bytes when they hold the same [data].
    [read_fault] is the exception that opening or decoding the file
    raises, if any. *)
Record file : Type := mkfile {
  fkind : kind;
  data : str;
  read_fault : option str;
  wfault : write_fault
}.

(** The tree under the root.  [tree] lists the entries as a recursive
    listing meets them, links among them.  [target p] is the file that the
    path [p] names when it is opened or examined: a path that is no link
    names itself, a symbolic link names what it points to, and the hard
    links of one file have one target.  [held] says what every file holds,
    by its target. *)
Record fs : Type := mkfs {
  tree : list path;
  target : path -> path;
  held : path -> file
}.

(** What the path [p] holds: what the file that it names holds. *)
Definition files (s : fs) (p : path) : file := held s (target s p).

Definition with_data (f : file) (d : str) : file :=
  mkfile (fkind f) d (read_fault f) (wfault f).

(** The store after the file that [p] names has been given the content
    [d]: every path that names this file holds the new content. *)
Definition set_data (s : fs) (p : path) (d : str) : fs :=
  mkfs (tree s) (target s)
       (fun i => if str_eqb i (target s p) then with_data (held s i) d else held s i).

Inductive event : Type :=
| Read (p : path)
| Written (p : path)
| Printed (line : str).

(** A computation of the script: from the store to a value or an
    exception (its message), the store left behind, and what was seen. *)
Definition io (A : Type) : Type := fs -> (A + str) * fs * list event.

Definition ret {A} (a : A) : io A := fun s => (inl a, s, []).

Definition bind {A B} (m : io A) (f : A -> io B) : io B :=
  fun s =>
    match m s with
    | (inl a, s1, ev1) => let '(r, s2, ev2) := f a s1 in (r, s2, ev1 ++ ev2)
    | (inr e, s1, ev1) => (inr e, s1, ev1)
    end.

Definition raise {A} (e : str) : io A := fun s => (inr e, s, []).

(** [try: m  except Exception as e: h e]. *)
Definition try_except {A} (m : io A) (h : str -> io A) : io A :=
  fun s =>
    match m s with
    | (inl a, s1, ev1) => (inl a, s1, ev1)
    | (inr e, s1, ev1) => let '(r, s2, ev2) := h e s1 in (r, s2, ev1 ++ ev2)
    end.

Definition emit (e : event) : io unit := fun s => (inl tt, s, [e]).

Definition print (line : str) : io unit := emit (Printed line).

Declare Scope io_scope.
Delimit Scope io_scope with io.
Notation "x <- m ;; k" := (bind m (fun x => k))
  (at level 61, m at next level, right associativity) : io_scope.
Notation "m ;; k" := (bind m (fun _ => k))
  (at level 61, right associativity) : io_scope.
Local Open Scope io_scope.

(** [for a in l: b = body a b], from [b0]. *)
Fixpoint for_each {A B} (l : list A) (body : A -> B -> io B) (b0 : B) : io B :=
  match l with
  | [] => ret b0
  | a :: l' => b1 <- body a b0 ;; for_each l' body b1
  end.

(** What text mode does to line endings when it reads.  The script opens
    its files with [open(filepath, 'r', encoding='utf-8')], that is with
    [newline=None]: a carriage return followed by a line feed, and a
    carriage return alone, are handed to the program as one line feed.
    [pending_cr] says that the character before was a carriage return. *)
Fixpoint universal_newlines (pending_cr : bool) (d : str) : str :=
  match d with
  | [] => []
  | c :: d' =>
      if c =? CR then LF :: universal_newlines true d'
      else if (c =? LF) && pending_cr then universal_newlines false d'
      else c :: universal_newlines false d'
  end.

(** [os.linesep] of a POSIX system. *)
Definition linesep : str := [LF].

(** What text mode does when it writes, again with [newline=None]: a line
    feed becomes [os.linesep]. *)
Definition newlines_out (x : str) : str :=
  flat_map (fun c => if c =? LF then linesep else [c]) x.

(** [with open(p, 'r', encoding='utf-8') as f: f.read()]. *)
Definition read_text (p : path) : io str :=
  emit (Read p) ;;
  fun s =>
    match read_fault (files s p) with
    | Some e => raise e s
    | None => ret (universal_newlines false (data (files s p))) s
    end.

(** [with open(p, 'w', encoding='utf-8') as f: f.write(x)]. *)
Definition write_text (p : path) (x : str) : io unit :=
  emit (Written p) ;;
  fun s =>
    match wfault (files s p) with
    | NoFault => (inl tt, set_data s p (newlines_out x), [])
    | OpenFault e => raise e s
    | IOFault e n => (inr e, set_data s p (firstn n (newlines_out x)), [])
    end.

(** [p.is_file()]: it follows links, so it looks at the file that the
    path names. *)
Definition is_regular (f : file) : bool :=
  match fkind f with
  | Regular => true
  | _ => false
  end.

Definition is_file (p : path) : io bool :=
  fun s => ret (is_regular (files s p)) s.

Definition SLASH : Z := 47.

Fixpoint take_name (rev_p : str) : str :=
  match rev_p with
  | [] => []
  | c :: r => if c =? SLASH then [] else c :: take_name r
  end.

(** [p.name]: the last component of the path. *)
Definition name (p : path) : str := rev (take_name (rev p)).

(** [Path('.').rglob('*' + ext)]: the entries of the tree whose name
    matches the pattern, that is ends with [ext], whatever their kind and
    wherever they are, hidden directories included.  The listing does not
    depend on what the files hold, so it is taken at once. *)
Definition rglob (ext : str) : io (list path) :=
  fun s => ret (filter (fun p => endswith ext (name p)) (tree s)) s.

End Fs.
Import Fs.
Local Open Scope io_scope.

(** ** The script *)

Definition exclusions : list str :=
  [ text "node_modules";
    text "dist";
    text "electron/node_modules";
    text "electron/release";
    text "electron/app";
    text ".git";
    text "update_licenses.py";
    text "update_licenses.sh" ].

Definition should_process_file (filepath : path) : bool :=
  let path_str := filepath in
  negb (existsb (fun excl => contains excl path_str) exclusions).

(** The body of the [try]: [Some b] is [return b], [None] is falling out
    of the [try] to the [return False] after it. *)
Definition update_file_try (filepath : path) : io (option bool) :=
  content <- read_text filepath ;;
  if contains SIGNATURE content then
    let new_content :=
      sub_first MIT_LICENSE_PATTERN (PROPRIETARY_HEADER ++ [LF; LF]) content in
    if negb (str_eqb new_content content) then
      write_text filepath new_content ;;
      ret (Some true)
    else ret None
  else ret None.

Definition update_file (filepath : path) : io bool :=
  r <- try_except (update_file_try filepath)
         (fun e =>
            print (text "Error processing " ++ filepath ++ text ": " ++ e) ;;
            ret None) ;;
  match r with
  | Some b => ret b
  | None => ret false
  end.

Definition extensions : list str :=
  [ text ".ts"; text ".tsx"; text ".js"; text ".jsx" ].

(** The body of the inner loop of [main]. *)
Definition visit (filepath : path) (updated_count : nat) : io nat :=
  go <- (if should_process_file filepath then is_file filepath else ret false) ;;
  if go then
    updated <- update_file filepath ;;
    if updated then
      print (text "Updated: " ++ filepath) ;;
      ret (S updated_count)
    else ret updated_count
  else ret updated_count.

Definition main : io unit :=
  updated_count <-
    for_each extensions
      (fun ext updated_count =>
         found <- rglob ext ;;
         for_each found visit updated_count)
      O ;;
  print (LF :: text "Total files updated: " ++ str_of_nat updated_count).

(** ** Vocabulary of the statements *)

(** What a computation leaves behind. *)
Definition value_of {A} (r : (A + str) * fs * list event) : A + str := fst (fst r).
Definition store_of {A} (r : (A + str) * fs * list event) : fs := snd (fst r).
Definition events_of {A} (r : (A + str) * fs * list event) : list event := snd r.

(** The content of a file as [f.read()] returns it. *)
Definition text_of (f : file) : str := universal_newlines false (data f).

(** The value of [new_content], when the run of [update_file] on a file of
    this content reaches its assignment. *)
Definition substituted (content : str) : option str :=
  if contains SIGNATURE content
  then Some (sub_first MIT_LICENSE_PATTERN REPLACEMENT content)
  else None.

(** The text [update_file] asks to write, if it asks. *)
Definition rewritten (content : str) : option str :=
  match substituted content with
  | Some new_content =>
      if str_eqb new_content content then None else Some new_content
  | None => None
  end.

Definition error_line (p : path) (e : str) : str :=
  text "Error processing " ++ p ++ text ": " ++ e.

Definition updated_line (p : path) : str := text "Updated: " ++ p.

Definition total_line (n : nat) : str :=
  LF :: text "Total files updated: " ++ str_of_nat n.

(** The paths of the files opened for reading, in order. *)
Fixpoint reads (ev : list event) : list path :=
  match ev with
  | [] => []
  | Read p :: ev' => p :: reads ev'
  | _ :: ev' => reads ev'
  end.

(** The paths of the files opened for writing, in order. *)
Fixpoint writes (ev : list event) : list path :=
  match ev with
  | [] => []
  | Written p :: ev' => p :: writes ev'
  | _ :: ev' => writes ev'
  end.

(** The lines printed, in order. *)
Fixpoint printed (ev : list event) : list str :=
  match ev with
  | [] => []
  | Printed l :: ev' => l :: printed ev'
  | _ :: ev' => printed ev'
  end.

(** The test of the inner loop of [main], on the store the run starts
    from. *)
Definition selected (s : fs) (p : path) : bool :=
  should_process_file p && is_regular (files s p).

(** The files a run of [main] hands to [update_file], in order. *)
Definition candidates (s : fs) : list path :=
  flat_map
    (fun ext => filter (selected s) (filter (fun p => endswith ext (name p)) (tree s)))
    extensions.

(** A file on which [update_file] changes nothing and answers [False]: it
    cannot be read, or nothing is to be written, or it cannot be opened
    for writing. *)
Definition quiet (f : file) : bool :=
  match read_fault f with
  | Some _ => true
  | None =>
      match rewritten (text_of f) with
      | None => true
      | Some _ =>
          match wfault f with
          | OpenFault _ => true
          | _ => false
          end
      end
  end.

(** The signature phrase occurs neither before nor after the first match
    of the pattern. *)
Definition signature_only_in_header (content : str) : bool :=
  match search MIT_LICENSE_PATTERN content with
  | Some (before, rest) =>
      negb (contains SIGNATURE before) && negb (contains SIGNATURE rest)
  | None => true
  end.

(** The files of the run all have the signature phrase in the header
    block only. *)
Definition headers_only (s0 : fs) : Prop :=
  forall p, In p (candidates s0) ->
            signature_only_in_header (text_of (files s0 p)) = true.

(** What a run of [main] has established after it has handed the files
    [seen] to [update_file] and left the store [s] and the trace [ev],
    from the store [s0]. *)
Record progress (s0 : fs) (seen : list path) (s : fs) (ev : list event) : Prop :=
  mkprogress {
    same_tree : tree s = tree s0;
    same_target : forall p, target s p = target s0 p;
    same_kind : forall p, fkind (files s p) = fkind (files s0 p);
    same_read_fault : forall p, read_fault (files s p) = read_fault (files s0 p);
    same_wfault : forall p, wfault (files s p) = wfault (files s0 p);
    reads_seen : reads ev = seen;
    writes_seen : forall p, In p (writes ev) -> In p seen;
    untouched :
      forall p, (forall q, In q seen -> target s0 q <> target s0 p) ->
                files s p = files s0 p;
    settled :
      headers_only s0 ->
      forall p, quiet (files s p) = true \/ files s p = files s0 p;
    seen_quiet :
      headers_only s0 -> forall p, In p seen -> quiet (files s p) = true
  }.

(** [y] is what is left of [x] after some of its characters are read. *)
Definition rest_of (x y : str) : Prop := exists m, x = m ++ y.

(** A matcher is sound when it only hands to its continuation a text left
    of the one it was given. *)
Definition sound (m : matcher) : Prop :=
  forall x k res, m x k = Some res -> exists y, rest_of x y /\ k y = Some res.

(** A matcher looks at its continuation on texts no longer than its
    own ([Nat.le]) or on shorter ones only ([Nat.lt]). *)
Definition within (R : nat -> nat -> Prop) (m : matcher) : Prop :=
  forall x k1 k2,
    (forall y, R (List.length y) (List.length x) -> k1 y = k2 y) ->
    m x k1 = m x k2.

(** What one call of [update_file] does to the store and to the trace. *)
Record effect (p : path) (s : fs) (b : bool) (s' : fs) (ev : list event) : Prop :=
  mkeffect {
    eff_reads : reads ev = [p];
    eff_writes : forall q, In q (writes ev) -> q = p;
    eff_tree : tree s' = tree s;
    eff_target : forall q, target s' q = target s q;
    eff_kind : forall q, fkind (files s' q) = fkind (files s q);
    eff_read_fault : forall q, read_fault (files s' q) = read_fault (files s q);
    eff_wfault : forall q, wfault (files s' q) = wfault (files s q);
    eff_others : forall q, target s q <> target s p -> files s' q = files s q;
    eff_alias : forall q, target s q = target s p -> files s' q = files s' p;
    eff_quiet : quiet (files s p) = true -> s' = s /\ b = false;
    eff_settles :
      signature_only_in_header (text_of (files s p)) = true ->
      quiet (files s' p) = true
  }.

(** ** Sample files *)

(** An MIT-style header of the shape the pattern describes. *)
Definition MIT_HEADER : str :=
  join_lines
    [ text "/**";
      text " * Copyright (c) 2023 Philip L. Giacalone";
      text " *";
      text " * Permission is hereby granted, free of charge, to any person";
      text " */";
      [] ].

Definition CODE : str := text "export const x = 1;" ++ [LF].

Definition regular_file (d : str) : file := mkfile Regular d None NoFault.

(** What a path that is not in the tree holds. *)
Definition missing : file :=
  mkfile Special []
    (Some (text "[Errno 2] No such file or directory"))
    (OpenFault (text "[Errno 2] No such file or directory")).

(** The tree of a listing without links: every path names itself. *)
Definition tree_of (l : list (path * file)) : fs :=
  mkfs (map fst l) (fun q => q)
       (fun q =>
          match find (fun e => str_eqb (fst e) q) l with
          | Some e => snd e
          | None => missing
          end).

Definition single (p : path) (f : file) : fs := tree_of [(p, f)].

Definition a_ts : path := text "src/a.ts".

(** A file with one header block. *)
Definition one_header : fs := single a_ts (regular_file (MIT_HEADER ++ CODE)).

(** A file with two header blocks. *)
Definition two_headers : fs :=
  single a_ts (regular_file (MIT_HEADER ++ MIT_HEADER ++ CODE)).

(** A file whose code line ends in a carriage return and a line feed. *)
Definition crlf_tail : fs :=
  single a_ts (regular_file (MIT_HEADER ++ text "export const x = 1;" ++ [CR; LF])).

(** A file without the signature phrase. *)
Definition plain : fs := single a_ts (regular_file CODE).

(** The signature phrase in a string literal, and no header. *)
Definition phrase_in_code : fs :=
  single a_ts
    (regular_file
       (text "const s = " ++ QUOTE :: text "Permission is hereby granted"
          ++ QUOTE :: text ";" ++ [LF])).

(** A header block after a comment line. *)
Definition NOTE : str := text "// viewer" ++ [LF].

Definition header_mid_file : fs :=
  single a_ts (regular_file (NOTE ++ MIT_HEADER ++ CODE)).

(** A file that cannot be opened for writing. *)
Definition read_only : fs :=
  single a_ts
    (mkfile Regular (MIT_HEADER ++ CODE) None
       (OpenFault (text "[Errno 13] Permission denied"))).

(** A file on a full disk: it opens for writing, and the write fails. *)
Definition disk_full : fs :=
  single a_ts
    (mkfile Regular (MIT_HEADER ++ CODE) None
       (IOFault (text "[Errno 28] No space left on device") 0)).

(** A small project: a source file, a dependency, a directory with the
    name of a source file, and a file of another kind. *)
Definition index_js : path := text "node_modules/lib/index.js".

Definition project : fs :=
  tree_of
    [ (a_ts, regular_file (MIT_HEADER ++ CODE));
      (index_js, regular_file (MIT_HEADER ++ CODE));
      (text "src/gen.js", mkfile Directory [] None NoFault);
      (text "README.md", regular_file (MIT_HEADER ++ CODE)) ].

(** A dependency and a link to it from the sources: [src/link.js] names
    the file [node_modules/lib/index.js]. *)
Definition link_js : path := text "src/link.js".

Definition linked : fs :=
  mkfs [index_js; link_js]
       (fun q => if str_eqb q link_js then index_js else q)
       (fun i => if str_eqb i index_js then regular_file (MIT_HEADER ++ CODE)
                 else missing).

(** ** Vocabulary of the further statements *)

(** The exclusion list without its entry [electron/node_modules]. *)
Definition exclusions_without_electron_node_modules : list str :=
  [ text "node_modules";
    text "dist";
    text "electron/release";
    text "electron/app";
    text ".git";
    text "update_licenses.py";
    text "update_licenses.sh" ].

(** [line.startswith("Updated: ")]. *)
Definition is_updated_line (l : str) : bool := startswith (text "Updated: ") l.

(** The texts of a regular expression: what it can match, whatever the
    order in which the matcher tries the ways to match.  A repetition
    stops when it owes no round, and goes one more round when it owes one
    or may still do one. *)
Inductive matches : regex -> str -> Prop :=
| matches_chr (c : Z) : matches (Chr c) [c]
| matches_cls (p : Z -> bool) (c : Z) : p c = true -> matches (Cls p) [c]
| matches_eps : matches Eps []
| matches_seq (r1 r2 : regex) (m1 m2 : str) :
    matches r1 m1 -> matches r2 m2 -> matches (Seq r1 r2) (m1 ++ m2)
| matches_group (r : regex) (m : str) : matches r m -> matches (Group r) m
| matches_stop (hi : option nat) (greedy : bool) (r : regex) :
    matches (Repeat O hi greedy r) []
| matches_again (lo : nat) (hi : option nat) (greedy : bool) (r : regex)
    (m1 m2 : str) :
    (lo = O -> hi <> Some O) ->
    matches r m1 ->
    matches (Repeat (Nat.pred lo) (hi_pred hi) greedy r) m2 ->
    matches (Repeat lo hi greedy r) (m1 ++ m2).

(** A header block in its usual layout: the opening, the copyright line
    with the year given, the line with an asterisk only, one comment line
    for every text of [lines], and the close. *)
Definition usual_header (year : str) (lines : list str) : str :=
  text "/**" ++ [LF]
  ++ text " * Copyright (c) " ++ year ++ text " Philip L. Giacalone" ++ [LF]
  ++ text " *" ++ [LF]
  ++ flat_map (fun l => text " *" ++ l ++ [LF]) lines
  ++ text " */" ++ [LF].

(** ** Tactics *)

Ltac unfold_io :=
  cbv [update_file update_file_try visit bind try_except read_text write_text
       is_file rglob emit raise ret print].

Module TextFacts.

(** ** Facts about text *)

Lemma str_eqb_eq (a b : str) : str_eqb a b = true <-> a = b.
Proof.
  revert b. induction a as [|x a IH]; intros [|y b]; simpl; split; intro H;
    try reflexivity; try discriminate.
  - apply andb_true_iff in H. destruct H as [Hx Hab].
    apply Z.eqb_eq in Hx. apply IH in Hab. congruence.
  - injection H as -> ->. rewrite Z.eqb_refl. simpl. apply IH. reflexivity.
Qed.

Lemma str_eqb_neq (a b : str) : str_eqb a b = false <-> a <> b.
Proof.
  split.
  - intros H E. apply str_eqb_eq in E. congruence.
  - intro H. destruct (str_eqb a b) eqn:E; [|reflexivity].
    apply str_eqb_eq in E. contradiction.
Qed.

Lemma startswith_nil (x : str) : startswith [] x = true.
Proof. destruct x; reflexivity. Qed.

Lemma contains_nil (x : str) : contains [] x = true.
Proof. destruct x; reflexivity. Qed.

Lemma startswith_app (sub rest : str) : startswith sub (sub ++ rest) = true.
Proof.
  induction sub as [|c sub IH]; simpl.
  - reflexivity.
  - rewrite Z.eqb_refl. exact IH.
Qed.

Lemma endswith_app (sub head : str) : endswith sub (head ++ sub) = true.
Proof.
  unfold endswith. rewrite rev_app_distr. apply startswith_app.
Qed.

(** A character that [sub] lacks ends every attempt to read [sub]. *)
Lemma startswith_absent (sub a b : str) (c : Z) :
  ~ In c sub -> startswith sub (a ++ c :: b) = startswith sub a.
Proof.
  revert a. induction sub as [|x sub IH]; intros a Hc.
  - reflexivity.
  - destruct a as [|h a]; simpl.
    + destruct (x =? c) eqn:E; [|reflexivity].
      apply Z.eqb_eq in E. exfalso. apply Hc. left. exact E.
    + rewrite IH; [reflexivity|]. intro H. apply Hc. right. exact H.
Qed.

(** An occurrence of [sub] cannot straddle a character that [sub] lacks. *)
Lemma contains_absent (sub a b : str) (c : Z) :
  ~ In c sub -> contains sub (a ++ c :: b) = contains sub a || contains sub b.
Proof.
  intro Hc. induction a as [|h a IH]; simpl.
  - change (c :: b) with ([] ++ c :: b) at 1.
    rewrite (startswith_absent sub [] b c Hc). reflexivity.
  - change (h :: a ++ c :: b) with ((h :: a) ++ c :: b).
    rewrite (startswith_absent sub (h :: a) b c Hc), IH.
    rewrite orb_assoc. reflexivity.
Qed.

Lemma startswith_firstn (sub x : str) (n : nat) :
  startswith sub (firstn n x) = true -> startswith sub x = true.
Proof.
  revert x n. induction sub as [|c sub IH]; intros x n H.
  - apply startswith_nil.
  - destruct n as [|n]; destruct x as [|d x]; simpl in *; try discriminate.
    apply andb_true_iff in H. destruct H as [-> H]. simpl. eapply IH. exact H.
Qed.

Lemma contains_firstn (sub x : str) (n : nat) :
  contains sub (firstn n x) = true -> contains sub x = true.
Proof.
  revert n. induction x as [|d x IH]; intros n H.
  - rewrite firstn_nil in H. exact H.
  - destruct n as [|n].
    + simpl in H. destruct sub; [apply contains_nil | discriminate].
    + rewrite firstn_cons in H. simpl in H. simpl.
      apply orb_true_iff in H. apply orb_true_iff. destruct H as [H|H].
      * left. change (d :: firstn n x) with (firstn (S n) (d :: x)) in H.
        eapply startswith_firstn. exact H.
      * right. eapply IH. exact H.
Qed.

(** ** Facts about line endings *)

Lemma universal_newlines_no_cr (d : str) (b : bool) :
  ~ In CR (universal_newlines b d).
Proof.
  revert b. induction d as [|c d IH]; intros b; simpl.
  - intros [].
  - destruct (c =? CR) eqn:E.
    + intros [H|H]; [discriminate | exact (IH true H)].
    + destruct ((c =? LF) && b).
      * apply IH.
      * intros [H|H]; [|exact (IH false H)].
        apply Z.eqb_neq in E. congruence.
Qed.

Lemma universal_newlines_id (d : str) :
  ~ In CR d -> universal_newlines false d = d.
Proof.
  induction d as [|c d IH]; intro H; simpl; [reflexivity|].
  destruct (c =? CR) eqn:E.
  - apply Z.eqb_eq in E. exfalso. apply H. left. exact E.
  - rewrite andb_false_r, IH; [reflexivity|]. intro K. apply H. right. exact K.
Qed.

Lemma newlines_out_id (x : str) : newlines_out x = x.
Proof.
  unfold newlines_out, linesep. induction x as [|c x IH]; simpl; [reflexivity|].
  rewrite IH. destruct (c =? LF) eqn:E; [|reflexivity].
  apply Z.eqb_eq in E. subst. reflexivity.
Qed.

Lemma startswith_universal_newlines (sub d : str) :
  ~ In CR sub -> ~ In LF sub ->
  startswith sub (universal_newlines false d) = startswith sub d.
Proof.
  revert d. induction sub as [|x sub IH]; intros d Hcr Hlf.
  - reflexivity.
  - destruct d as [|c d]; simpl; [reflexivity|].
    assert (Hx1 : (x =? CR) = false) by (apply Z.eqb_neq; intro; apply Hcr; left; congruence).
    assert (Hx2 : (x =? LF) = false) by (apply Z.eqb_neq; intro; apply Hlf; left; congruence).
    destruct (c =? CR) eqn:E.
    + apply Z.eqb_eq in E. subst c. simpl. rewrite Hx1, Hx2. reflexivity.
    + rewrite andb_false_r. simpl. rewrite IH; [reflexivity| |];
        intro K; [apply Hcr | apply Hlf]; right; exact K.
Qed.

(** The phrase is on one line, so reading in text mode neither hides
    nor creates an occurrence of it. *)
Lemma contains_universal_newlines (sub d : str) (b : bool) :
  sub <> [] -> ~ In CR sub -> ~ In LF sub ->
  contains sub (universal_newlines b d) = contains sub d.
Proof.
  intros Hne Hcr Hlf.
  destruct sub as [|x sub]; [contradiction|].
  assert (Hx1 : (x =? CR) = false) by (apply Z.eqb_neq; intro; apply Hcr; left; congruence).
  assert (Hx2 : (x =? LF) = false) by (apply Z.eqb_neq; intro; apply Hlf; left; congruence).
  revert b. induction d as [|c d IH]; intro b; [reflexivity|].
  cbn [universal_newlines].
  destruct (c =? CR) eqn:E.
  - apply Z.eqb_eq in E. subst c. cbn [contains startswith].
    rewrite IH, Hx1, Hx2. reflexivity.
  - destruct ((c =? LF) && b) eqn:E2.
    + apply andb_true_iff in E2. destruct E2 as [E2 _].
      apply Z.eqb_eq in E2. subst c. cbn [contains startswith].
      rewrite IH, Hx2. reflexivity.
    + cbn [contains]. rewrite IH. f_equal.
      assert (Hs : startswith (x :: sub) (universal_newlines false (c :: d))
                   = startswith (x :: sub) (c :: d))
        by (apply startswith_universal_newlines; assumption).
      cbn [universal_newlines] in Hs. rewrite E, andb_false_r in Hs. exact Hs.
Qed.

End TextFacts.
Import TextFacts.

Module ReFacts.

(** ** Facts about the matcher *)


Lemma rest_of_refl (x : str) : rest_of x x.
Proof. exists []. reflexivity. Qed.

Lemma rest_of_trans (x y z : str) : rest_of x y -> rest_of y z -> rest_of x z.
Proof.
  intros [m1 ->] [m2 ->]. exists (m1 ++ m2). rewrite <- app_assoc. reflexivity.
Qed.

Lemma rest_of_cons (c : Z) (x : str) : rest_of (c :: x) x.
Proof. exists [c]. reflexivity. Qed.


Lemma rep_sound (body : matcher) :
  sound body ->
  forall fuel lo hi greedy, sound (rep body lo hi greedy fuel).
Proof.
  intros Hb fuel. induction fuel as [|fuel IH]; intros lo hi greedy x k res H.
  - discriminate.
  - cbn [rep] in H.
    remember (body x (fun x' => rep body (Nat.pred lo) (hi_pred hi) greedy fuel x' k))
      as again eqn:Ea.
    assert (Hagain : again = Some res -> exists y, rest_of x y /\ k y = Some res).
    { intro Ha. rewrite Ea in Ha. apply Hb in Ha. destruct Ha as [y [Hy Ha]].
      apply IH in Ha. destruct Ha as [z [Hz Ha]].
      exists z. split; [eapply rest_of_trans; eassumption | exact Ha]. }
    assert (Hstop : k x = Some res -> exists y, rest_of x y /\ k y = Some res).
    { intro Hk. exists x. split; [apply rest_of_refl | exact Hk]. }
    clear Ea. destruct lo as [|lo]; [|exact (Hagain H)].
    assert (Hloop :
      (if greedy then orelse again (fun _ => k x) else orelse (k x) (fun _ => again))
      = Some res -> exists y, rest_of x y /\ k y = Some res).
    { intro Hl. destruct greedy; unfold orelse in Hl.
      - destruct again; [exact (Hagain Hl) | exact (Hstop Hl)].
      - destruct (k x); [exact (Hstop Hl) | exact (Hagain Hl)]. }
    destruct hi as [[|h]|]; [exact (Hstop H) | exact (Hloop H) | exact (Hloop H)].
Qed.

Lemma run_sound (r : regex) : sound (run r).
Proof.
  induction r as [c|p| |r1 IH1 r2 IH2|r IH|lo hi greedy r IH]; intros x k res H.
  - destruct x as [|d x]; cbn [run] in H; [discriminate|].
    destruct (d =? c); [|discriminate].
    exists x. split; [apply rest_of_cons | exact H].
  - destruct x as [|d x]; cbn [run] in H; [discriminate|].
    destruct (p d); [|discriminate].
    exists x. split; [apply rest_of_cons | exact H].
  - exists x. split; [apply rest_of_refl | exact H].
  - cbn [run] in H. apply IH1 in H. destruct H as [y [Hy H]].
    apply IH2 in H. destruct H as [z [Hz H]].
    exists z. split; [eapply rest_of_trans; eassumption | exact H].
  - cbn [run] in H. apply IH in H. exact H.
  - cbn [run] in H. apply (rep_sound _ IH) in H. exact H.
Qed.

(** A match consumes a prefix of the text. *)
Lemma match_here_rest (r : regex) (x rest : str) :
  match_here r x = Some rest -> exists matched, x = matched ++ rest.
Proof.
  unfold match_here. intro H. apply run_sound in H.
  destruct H as [y [[m Hm] Hy]]. injection Hy as ->. exists m. exact Hm.
Qed.

(** What [search] finds is a match, and the leftmost one. *)
Lemma search_found (r : regex) (x before rest : str) :
  search r x = Some (before, rest) ->
  exists matched,
    x = before ++ matched ++ rest /\
    match_here r (matched ++ rest) = Some rest /\
    forall a b, x = a ++ b -> (List.length a < List.length before)%nat ->
                match_here r b = None.
Proof.
  revert before rest. induction x as [|c x IH]; intros before rest H.
  - cbn [search] in H. destruct (match_here r []) as [y|] eqn:E; [|discriminate].
    injection H as <- <-. destruct (match_here_rest _ _ _ E) as [m Hm].
    exists m. split; [exact Hm|]. split; [rewrite <- Hm; exact E|].
    intros a b _ Hl. simpl in Hl. lia.
  - cbn [search] in H. destruct (match_here r (c :: x)) as [y|] eqn:E.
    + injection H as <- <-. destruct (match_here_rest _ _ _ E) as [m Hm].
      exists m. split; [exact Hm|]. split; [rewrite <- Hm; exact E|].
      intros a b _ Hl. simpl in Hl. lia.
    + destruct (search r x) as [[bf rs]|] eqn:Es; [|discriminate].
      injection H as <- <-. destruct (IH _ _ eq_refl) as [m [Hx [Hm Hleft]]].
      exists m. split; [simpl; f_equal; exact Hx|]. split; [exact Hm|].
      intros a b Hab Hl. destruct a as [|a0 a].
      * simpl in Hab. subst b. exact E.
      * simpl in Hab. injection Hab as -> Hab. apply (Hleft a b Hab).
        simpl in Hl. lia.
Qed.

(** [search] fails only when no position of the text starts a match. *)
Lemma search_none (r : regex) (x : str) :
  search r x = None -> forall a b, x = a ++ b -> match_here r b = None.
Proof.
  induction x as [|c x IH]; intros H a b Hab.
  - destruct a; [|discriminate]. simpl in Hab. subst b.
    cbn [search] in H. destruct (match_here r []); [discriminate | reflexivity].
  - cbn [search] in H. destruct (match_here r (c :: x)) eqn:E; [discriminate|].
    destruct (search r x) as [[bf rs]|] eqn:Es; [discriminate|].
    destruct a as [|a0 a].
    + simpl in Hab. subst b. exact E.
    + simpl in Hab. injection Hab as _ Hab. exact (IH eq_refl a b Hab).
Qed.

(** A match that starts where no earlier one does is the one [search]
    finds. *)
Lemma search_at (r : regex) (before b rest : str) :
  match_here r b = Some rest ->
  (forall a1 c a2, before = a1 ++ c :: a2 -> match_here r (c :: a2 ++ b) = None) ->
  search r (before ++ b) = Some (before, rest).
Proof.
  intros Hm. induction before as [|c before IH]; intro Hno.
  - simpl. destruct b; cbn [search]; rewrite Hm; reflexivity.
  - simpl. cbn [search]. rewrite (Hno [] c before eq_refl).
    rewrite IH; [reflexivity|].
    intros a1 d a2 E. apply (Hno (c :: a1) d a2). simpl. f_equal. exact E.
Qed.

(** *** The fuel of a repetition is enough *)

Lemma rep_within (body : matcher) :
  within Nat.le body ->
  forall fuel lo hi greedy, within Nat.le (rep body lo hi greedy fuel).
Proof.
  intros Hb fuel. induction fuel as [|fuel IH]; intros lo hi greedy x k1 k2 Hk.
  - reflexivity.
  - cbn [rep].
    assert (Ha : body x (fun x' => rep body (Nat.pred lo) (hi_pred hi) greedy fuel x' k1)
               = body x (fun x' => rep body (Nat.pred lo) (hi_pred hi) greedy fuel x' k2)).
    { apply Hb. intros y Hy. apply IH. intros z Hz. apply Hk.
      unfold Nat.le in *. lia. }
    assert (Hx : k1 x = k2 x) by (apply Hk; unfold Nat.le; lia).
    rewrite Ha, Hx. reflexivity.
Qed.

Lemma run_within (r : regex) : within Nat.le (run r).
Proof.
  induction r as [c|p| |r1 IH1 r2 IH2|r IH|lo hi greedy r IH]; intros x k1 k2 Hk.
  - destruct x as [|d x]; cbn [run]; [reflexivity|].
    destruct (d =? c); [|reflexivity]. apply Hk. unfold Nat.le. cbn. lia.
  - destruct x as [|d x]; cbn [run]; [reflexivity|].
    destruct (p d); [|reflexivity]. apply Hk. unfold Nat.le. cbn. lia.
  - apply Hk. unfold Nat.le. lia.
  - cbn [run]. apply IH1. intros y Hy. apply IH2. intros z Hz. apply Hk.
    unfold Nat.le in *. lia.
  - cbn [run]. apply IH. exact Hk.
  - cbn [run]. apply (rep_within _ IH). exact Hk.
Qed.

Lemma run_reads_one (r : regex) : reads_one r = true -> within Nat.lt (run r).
Proof.
  induction r as [c|p| |r1 IH1 r2 IH2|r IH|lo hi greedy r IH]; intros Hr x k1 k2 Hk;
    try discriminate.
  - destruct x as [|d x]; cbn [run]; [reflexivity|].
    destruct (d =? c); [|reflexivity]. apply Hk. unfold Nat.lt. cbn. lia.
  - destruct x as [|d x]; cbn [run]; [reflexivity|].
    destruct (p d); [|reflexivity]. apply Hk. unfold Nat.lt. cbn. lia.
  - cbn [run]. cbn [reads_one] in Hr. destruct (reads_one r1).
    + apply (IH1 eq_refl). intros y Hy. apply run_within. intros z Hz. apply Hk.
      unfold Nat.lt, Nat.le in *. lia.
    + apply run_within. intros y Hy. apply (IH2 Hr). intros z Hz. apply Hk.
      unfold Nat.lt, Nat.le in *. lia.
  - cbn [run]. apply (IH Hr). exact Hk.
Qed.

(** With a body that reads a character in every round, any fuel above
    the number of compulsory rounds plus the length of the text gives the
    same answer: the bound of [run] cuts no match short. *)
Lemma rep_fuel (body : matcher) :
  within Nat.lt body ->
  forall fuel1 fuel2 lo hi greedy x k,
    (lo + List.length x < fuel1)%nat -> (lo + List.length x < fuel2)%nat ->
    rep body lo hi greedy fuel1 x k = rep body lo hi greedy fuel2 x k.
Proof.
  intros Hb fuel1. induction fuel1 as [|fuel1 IH]; intros fuel2 lo hi greedy x k H1 H2.
  - lia.
  - destruct fuel2 as [|fuel2]; [lia|]. cbn [rep].
    assert (Ha : body x (fun x' => rep body (Nat.pred lo) (hi_pred hi) greedy fuel1 x' k)
               = body x (fun x' => rep body (Nat.pred lo) (hi_pred hi) greedy fuel2 x' k)).
    { apply Hb. intros y Hy. unfold Nat.lt in Hy. apply IH; lia. }
    rewrite Ha. reflexivity.
Qed.

Lemma run_repeat_fuel (r : regex) (lo : nat) (hi : option nat) (greedy : bool)
    (fuel : nat) (x : str) (k : str -> option str) :
  reads_one r = true ->
  (lo + List.length x < fuel)%nat ->
  run (Repeat lo hi greedy r) x k = rep (run r) lo hi greedy fuel x k.
Proof.
  intros Hr Hf. cbn [run]. apply rep_fuel; [apply run_reads_one; exact Hr | lia | exact Hf].
Qed.

(** The repetitions of the pattern of the script are all of this kind. *)
Lemma pattern_repeats_read : repeats_read MIT_LICENSE_PATTERN = true.
Proof. vm_compute. reflexivity. Qed.

(** *** The matcher and the texts of a regular expression *)

(** The matcher finds texts of the regular expression only. *)
Lemma rep_matches (r : regex) :
  (forall x k res, run r x k = Some res ->
                   exists m y, x = m ++ y /\ matches r m /\ k y = Some res) ->
  forall fuel lo hi greedy x k res,
    rep (run r) lo hi greedy fuel x k = Some res ->
    exists m y, x = m ++ y /\ matches (Repeat lo hi greedy r) m /\ k y = Some res.
Proof.
  intros Hb fuel. induction fuel as [|fuel IH]; intros lo hi greedy x k res H.
  - discriminate.
  - cbn [rep] in H.
    remember (run r x (fun x' => rep (run r) (Nat.pred lo) (hi_pred hi) greedy fuel x' k))
      as again eqn:Ea.
    assert (Hagain : (lo = O -> hi <> Some O) -> again = Some res ->
              exists m y, x = m ++ y /\ matches (Repeat lo hi greedy r) m /\ k y = Some res).
    { intros Hside Ha. rewrite Ea in Ha. apply Hb in Ha.
      destruct Ha as [m1 [y1 [-> [Hm1 Ha]]]].
      apply IH in Ha. destruct Ha as [m2 [y2 [-> [Hm2 Ha]]]].
      exists (m1 ++ m2), y2. split; [rewrite app_assoc; reflexivity|].
      split; [|exact Ha]. apply matches_again; assumption. }
    clear Ea. destruct lo as [|lo]; [|apply Hagain; [discriminate|exact H]].
    assert (Hstop : k x = Some res ->
              exists m y, x = m ++ y /\ matches (Repeat O hi greedy r) m /\ k y = Some res).
    { intro Hk. exists [], x. split; [reflexivity|]. split; [constructor|exact Hk]. }
    destruct hi as [[|h]|]; [exact (Hstop H)| |];
      (destruct greedy; unfold orelse in H;
       [ destruct again; [apply Hagain; [discriminate|exact H] | exact (Hstop H)]
       | destruct (k x); [exact (Hstop H) | apply Hagain; [discriminate|exact H]] ]).
Qed.

Lemma run_matches (r : regex) (x : str) (k : str -> option str) (res : str) :
  run r x k = Some res ->
  exists m y, x = m ++ y /\ matches r m /\ k y = Some res.
Proof.
  revert x k res.
  induction r as [c|p| |r1 IH1 r2 IH2|r IH|lo hi greedy r IH]; intros x k res H.
  - destruct x as [|d x]; cbn [run] in H; [discriminate|].
    destruct (d =? c) eqn:E; [|discriminate]. apply Z.eqb_eq in E. subst d.
    exists [c], x. split; [reflexivity|]. split; [constructor|exact H].
  - destruct x as [|d x]; cbn [run] in H; [discriminate|].
    destruct (p d) eqn:E; [|discriminate].
    exists [d], x. split; [reflexivity|]. split; [constructor; exact E|exact H].
  - exists [], x. split; [reflexivity|]. split; [constructor|exact H].
  - cbn [run] in H. apply IH1 in H. destruct H as [m1 [y1 [-> [Hm1 H]]]].
    apply IH2 in H. destruct H as [m2 [y2 [-> [Hm2 H]]]].
    exists (m1 ++ m2), y2. split; [rewrite app_assoc; reflexivity|].
    split; [constructor; assumption|exact H].
  - cbn [run] in H. apply IH in H. destruct H as [m [y [-> [Hm H]]]].
    exists m, y. split; [reflexivity|]. split; [constructor; exact Hm|exact H].
  - cbn [run] in H. apply (rep_matches r IH) in H. exact H.
Qed.

(** A text of a regular expression that reads a character has one. *)
Lemma matches_reads_one (r : regex) (m : str) :
  matches r m -> reads_one r = true -> m <> [].
Proof.
  induction 1 as [c|p c Hp| |r1 r2 m1 m2 H1 IH1 H2 IH2|r m H IH| |]; cbn [reads_one];
    intro Hr; try discriminate.
  - apply orb_true_iff in Hr. intro E. apply app_eq_nil in E. destruct E as [E1 E2].
    destruct Hr as [Hr|Hr]; [exact (IH1 Hr E1) | exact (IH2 Hr E2)].
  - exact (IH Hr).
Qed.

(** The matcher finds a match wherever a text of the regular expression
    starts, when every repeated body reads a character. *)
Lemma matches_run (r : regex) (m : str) :
  matches r m -> repeats_read r = true ->
  forall y k, k y <> None -> run r (m ++ y) k <> None.
Proof.
  induction 1 as [c|p c Hp| |r1 r2 m1 m2 H1 IH1 H2 IH2|r m H IH|hi greedy r
                 |lo hi greedy r m1 m2 Hside H1 IH1 H2 IH2];
    cbn [repeats_read]; intros Hr y k Hk.
  - cbn [app run]. rewrite Z.eqb_refl. exact Hk.
  - cbn [app run]. rewrite Hp. exact Hk.
  - exact Hk.
  - apply andb_true_iff in Hr. destruct Hr as [Hr1 Hr2].
    cbn [run]. rewrite <- app_assoc. apply (IH1 Hr1). apply (IH2 Hr2). exact Hk.
  - cbn [run]. apply (IH Hr). exact Hk.
  - cbn [app run]. cbn [Nat.add rep].
    destruct hi as [[|h]|]; [exact Hk| |];
      (destruct greedy; unfold orelse;
       [ destruct (run r y _); [discriminate|exact Hk]
       | destruct (k y); [discriminate|contradiction] ]).
  - pose proof Hr as Hr'. apply andb_true_iff in Hr. destruct Hr as [Hr1 Hr2].
    cbn [run]. rewrite <- app_assoc.
    replace (lo + S (List.length (m1 ++ m2 ++ y)))%nat
      with (S (lo + List.length (m1 ++ m2 ++ y)))%nat by lia.
    cbn [rep].
    assert (Hagain :
      run r (m1 ++ m2 ++ y)
        (fun x' => rep (run r) (Nat.pred lo) (hi_pred hi) greedy
                     (lo + List.length (m1 ++ m2 ++ y)) x' k) <> None).
    { apply (IH1 Hr2).
      assert (Hlen : (Nat.pred lo + List.length (m2 ++ y)
                      < lo + List.length (m1 ++ m2 ++ y))%nat).
      { rewrite (length_app m1). destruct lo as [|lo]; [|cbn; lia].
        pose proof (matches_reads_one _ _ H1 Hr1) as Hne.
        destruct m1; [contradiction|cbn; lia]. }
      rewrite (rep_fuel (run r) (run_reads_one r Hr1) _
                 (Nat.pred lo + S (List.length (m2 ++ y)))%nat); [|exact Hlen|lia].
      apply (IH2 Hr' y k Hk). }
    destruct lo as [|lo]; [|exact Hagain].
    destruct hi as [[|h]|]; [exfalso; exact (Hside eq_refl eq_refl)| |];
      (destruct greedy; unfold orelse;
       [ destruct (run r (m1 ++ m2 ++ y) _); [discriminate|contradiction]
       | destruct (k (m1 ++ m2 ++ y)); [discriminate|exact Hagain] ]).
Qed.

(** [search] does not miss a text of the regular expression. *)
Lemma search_finds (r : regex) (a m b : str) :
  repeats_read r = true -> matches r m -> search r (a ++ m ++ b) <> None.
Proof.
  intros Hr Hm E.
  pose proof (search_none _ _ E a (m ++ b) eq_refl) as Hn.
  unfold match_here in Hn. revert Hn. apply (matches_run r m Hm Hr). discriminate.
Qed.

(** What [search] finds is a text of the regular expression. *)
Lemma search_found_matches (r : regex) (x before rest : str) :
  search r x = Some (before, rest) ->
  exists m, x = before ++ m ++ rest /\ matches r m.
Proof.
  intro E. destruct (search_found _ _ _ _ E) as [matched [Hx [Hm _]]].
  unfold match_here in Hm. apply run_matches in Hm.
  destruct Hm as [m [y [Hmy [Hmat Hy]]]]. injection Hy as ->.
  apply app_inv_tail in Hmy. subst matched. exists m. split; assumption.
Qed.

(** The pattern can only match at a slash. *)
Lemma match_here_slash (c : Z) (x : str) :
  c <> SLASH -> match_here MIT_LICENSE_PATTERN (c :: x) = None.
Proof.
  intro H. unfold match_here, MIT_LICENSE_PATTERN. cbn.
  apply Z.eqb_neq in H. unfold SLASH in H. rewrite H. reflexivity.
Qed.

(** The replacement does not have the shape of the header it replaces:
    the pattern wants a line end after the name, the replacement goes on
    with a full stop. *)
Lemma replacement_no_match (rest : str) :
  match_here MIT_LICENSE_PATTERN (REPLACEMENT ++ rest) = None.
Proof. vm_compute. reflexivity. Qed.

End ReFacts.
Import ReFacts.

(** ** One call of [update_file] *)


(** Every way through [update_file], by what the file is. *)
Lemma update_file_run (p : path) (s : fs) :
  update_file p s =
  match read_fault (files s p) with
  | Some e => (inl false, s, [Read p; Printed (error_line p e)])
  | None =>
      match rewritten (text_of (files s p)) with
      | None => (inl false, s, [Read p])
      | Some new_content =>
          match wfault (files s p) with
          | NoFault =>
              (inl true, set_data s p (newlines_out new_content), [Read p; Written p])
          | OpenFault e =>
              (inl false, s, [Read p; Written p; Printed (error_line p e)])
          | IOFault e n =>
              (inl false, set_data s p (firstn n (newlines_out new_content)),
               [Read p; Written p; Printed (error_line p e)])
          end
      end
  end.
Proof.
  unfold_io. unfold rewritten, substituted, text_of, error_line.
  destruct (read_fault (files s p)) as [e|]; [reflexivity|].
  fold REPLACEMENT.
  destruct (contains SIGNATURE (universal_newlines false (data (files s p)))); [|reflexivity].
  destruct (str_eqb _ _); [reflexivity|]. cbn [negb].
  destruct (wfault (files s p)); reflexivity.
Qed.

Lemma files_set_data (s : fs) (p q : path) (d : str) :
  files (set_data s p d) q
  = if str_eqb (target s q) (target s p) then with_data (files s q) d else files s q.
Proof. reflexivity. Qed.

Lemma files_set_data_same (s : fs) (p : path) (d : str) :
  files (set_data s p d) p = with_data (files s p) d.
Proof.
  rewrite files_set_data.
  replace (str_eqb (target s p) (target s p)) with true; [reflexivity|].
  symmetry. apply str_eqb_eq. reflexivity.
Qed.

Lemma files_set_data_other (s : fs) (p q : path) (d : str) :
  target s q <> target s p -> files (set_data s p d) q = files s q.
Proof.
  intro H. rewrite files_set_data. apply str_eqb_neq in H. rewrite H. reflexivity.
Qed.

Lemma files_set_data_alias (s : fs) (p q : path) (d : str) :
  target s q = target s p -> files (set_data s p d) q = files (set_data s p d) p.
Proof.
  intro H. rewrite !files_set_data, H. unfold files. rewrite H. reflexivity.
Qed.

(** ** What is written *)

Lemma rewritten_no_signature (content : str) :
  contains SIGNATURE content = false -> rewritten content = None.
Proof. intro H. unfold rewritten, substituted. rewrite H. reflexivity. Qed.

Lemma rewritten_no_match (content : str) :
  search MIT_LICENSE_PATTERN content = None -> rewritten content = None.
Proof.
  intro H. unfold rewritten, substituted, sub_first. rewrite H.
  destruct (contains SIGNATURE content); [|reflexivity].
  replace (str_eqb content content) with true; [reflexivity|].
  symmetry. apply str_eqb_eq. reflexivity.
Qed.

(** The text around a match changes when the match is replaced: the
    replacement is not itself a match. *)
Lemma replaced_differs (content before rest : str) :
  search MIT_LICENSE_PATTERN content = Some (before, rest) ->
  before ++ REPLACEMENT ++ rest <> content.
Proof.
  intros H E. destruct (search_found _ _ _ _ H) as [matched [Hx [Hm _]]].
  rewrite Hx in E. apply app_inv_head in E. apply app_inv_tail in E.
  rewrite <- E in Hm. rewrite replacement_no_match in Hm. discriminate.
Qed.

Lemma rewritten_match (content before rest : str) :
  contains SIGNATURE content = true ->
  search MIT_LICENSE_PATTERN content = Some (before, rest) ->
  rewritten content = Some (before ++ REPLACEMENT ++ rest).
Proof.
  intros Hs H. unfold rewritten, substituted, sub_first. rewrite Hs, H.
  replace (str_eqb (before ++ REPLACEMENT ++ rest) content) with false; [reflexivity|].
  symmetry. apply str_eqb_neq. eapply replaced_differs. exact H.
Qed.

Lemma rewritten_some (content new_content : str) :
  rewritten content = Some new_content ->
  contains SIGNATURE content = true /\
  substituted content = Some new_content /\
  new_content <> content /\
  exists before rest,
    search MIT_LICENSE_PATTERN content = Some (before, rest) /\
    new_content = before ++ REPLACEMENT ++ rest.
Proof.
  unfold rewritten, substituted, sub_first. intro H.
  destruct (contains SIGNATURE content); [|discriminate].
  destruct (search MIT_LICENSE_PATTERN content) as [[before rest]|] eqn:Es.
  - destruct (str_eqb _ content) eqn:E; [discriminate|].
    injection H as <-. apply str_eqb_neq in E.
    repeat split; try assumption. exists before, rest. split; reflexivity.
  - replace (str_eqb content content) with true in H; [discriminate|].
    symmetry. apply str_eqb_eq. reflexivity.
Qed.

Lemma signature_one_line : SIGNATURE <> [] /\ ~ In CR SIGNATURE /\ ~ In LF SIGNATURE.
Proof.
  repeat split; [discriminate| |]; vm_compute; intro H;
    repeat (destruct H as [H|H]; [discriminate|]); exact H.
Qed.

Lemma signature_as_read (d : str) :
  contains SIGNATURE (universal_newlines false d) = contains SIGNATURE d.
Proof.
  destruct signature_one_line as [H1 [H2 H3]].
  apply contains_universal_newlines; assumption.
Qed.

Lemma data_set_data_same (s : fs) (p : path) (d : str) :
  data (files (set_data s p d) p) = d.
Proof. rewrite files_set_data_same. reflexivity. Qed.

(** A file that can be read and written, with the signature phrase and a
    match, is rewritten around the match. *)
Lemma update_file_rewrites (s : fs) (p : path) (before rest : str) :
  read_fault (files s p) = None ->
  wfault (files s p) = NoFault ->
  contains SIGNATURE (text_of (files s p)) = true ->
  search MIT_LICENSE_PATTERN (text_of (files s p)) = Some (before, rest) ->
  update_file p s
  = (inl true, set_data s p (before ++ REPLACEMENT ++ rest), [Read p; Written p]).
Proof.
  intros Hr Hw Hs Hm.
  rewrite update_file_run, Hr, (rewritten_match _ _ _ Hs Hm), Hw, newlines_out_id.
  reflexivity.
Qed.

(** No text of the regular expression starts before the match that
    [search] finds. *)
Lemma search_leftmost (r : regex) (x before rest a m b : str) :
  repeats_read r = true ->
  search r x = Some (before, rest) ->
  x = a ++ m ++ b -> matches r m ->
  (List.length before <= List.length a)%nat.
Proof.
  intros Hr Hs Hx Hm.
  destruct (search_found _ _ _ _ Hs) as [matched [_ [_ Hleft]]].
  destruct (Nat.le_gt_cases (List.length before) (List.length a)) as [H|H]; [exact H|].
  exfalso. pose proof (Hleft a (m ++ b) Hx H) as Hn.
  unfold match_here in Hn. revert Hn. apply (matches_run r m Hm Hr). discriminate.
Qed.

(** C1: when the content that [update_file] reads has the signature
    phrase and, somewhere, a text of the header pattern, the file holds
    afterwards what it held with one block replaced by the proprietary
    header and two line feeds.  The block is the match that the search
    finds: it is a text of the pattern, and no text of the pattern starts
    before it.  What was before it and what was after it, further header
    blocks included, is kept; the file is opened for writing once, and
    the answer is [True]. *)
Theorem update_file_replaces_first_match (s : fs) (p : path) :
  read_fault (files s p) = None ->
  wfault (files s p) = NoFault ->
  contains SIGNATURE (text_of (files s p)) = true ->
  (exists a m b,
      text_of (files s p) = a ++ m ++ b /\ matches MIT_LICENSE_PATTERN m) ->
  exists before matched rest,
    search MIT_LICENSE_PATTERN (text_of (files s p)) = Some (before, rest) /\
    text_of (files s p) = before ++ matched ++ rest /\
    matches MIT_LICENSE_PATTERN matched /\
    (forall a m b,
        text_of (files s p) = a ++ m ++ b -> matches MIT_LICENSE_PATTERN m ->
        (List.length before <= List.length a)%nat) /\
    value_of (update_file p s) = inl true /\
    writes (events_of (update_file p s)) = [p] /\
    data (files (store_of (update_file p s)) p)
    = before ++ (PROPRIETARY_HEADER ++ [LF; LF]) ++ rest.
Proof.
  intros Hr Hw Hs [a [m [b [Hx Hm]]]].
  destruct (search MIT_LICENSE_PATTERN (text_of (files s p))) as [[before rest]|] eqn:Es.
  - destruct (search_found_matches _ _ _ _ Es) as [matched [Hmx Hmm]].
    exists before, matched, rest.
    split; [reflexivity|]. split; [exact Hmx|]. split; [exact Hmm|]. split.
    + intros a' m' b' Hx' Hm'.
      apply (search_leftmost MIT_LICENSE_PATTERN _ before rest a' m' b'
               pattern_repeats_read Es Hx' Hm').
    + rewrite (update_file_rewrites _ _ _ _ Hr Hw Hs Es).
      unfold value_of, events_of, store_of. cbn [fst snd writes].
      rewrite data_set_data_same. repeat split.
  - exfalso. revert Es. rewrite Hx.
    apply search_finds; [apply pattern_repeats_read|exact Hm].
Qed.

Lemma one_header_has_header :
  exists a m b,
    text_of (files one_header a_ts) = a ++ m ++ b /\ matches MIT_LICENSE_PATTERN m.
Proof.
  assert (H : search MIT_LICENSE_PATTERN (text_of (files one_header a_ts))
              = Some ([], CODE)) by (vm_compute; reflexivity).
  destruct (search_found_matches _ _ _ _ H) as [m [Hx Hm]].
  exists [], m, CODE. split; assumption.
Qed.

Lemma update_file_replaces_first_match_witness :
  read_fault (files one_header a_ts) = None /\
  wfault (files one_header a_ts) = NoFault /\
  contains SIGNATURE (text_of (files one_header a_ts)) = true /\
  (exists a m b,
      text_of (files one_header a_ts) = a ++ m ++ b /\ matches MIT_LICENSE_PATTERN m) /\
  value_of (update_file a_ts one_header) = inl true /\
  writes (events_of (update_file a_ts one_header)) = [a_ts] /\
  data (files (store_of (update_file a_ts one_header)) a_ts)
  = PROPRIETARY_HEADER ++ [LF; LF] ++ CODE.
Proof.
  assert (Hs : contains SIGNATURE (text_of (files one_header a_ts)) = true)
    by (vm_compute; reflexivity).
  split; [reflexivity|]. split; [reflexivity|]. split; [exact Hs|].
  split; [exact one_header_has_header|].
  destruct (update_file_replaces_first_match one_header a_ts eq_refl eq_refl Hs
              one_header_has_header)
    as [before [matched [rest [Hsearch [_ [_ [_ [Hv [Hw Hd]]]]]]]]].
  assert (Hc : search MIT_LICENSE_PATTERN (text_of (files one_header a_ts))
               = Some ([], CODE)) by (vm_compute; reflexivity).
  rewrite Hc in Hsearch. injection Hsearch as <- <-.
  split; [exact Hv|]. split; [exact Hw|].
  rewrite Hd. cbn [app]. rewrite <- app_assoc. reflexivity.
Defined.

(** ** Traces *)

Lemma reads_app (ev1 ev2 : list event) : reads (ev1 ++ ev2) = reads ev1 ++ reads ev2.
Proof.
  induction ev1 as [|[p|p|l] ev1 IH]; simpl; [reflexivity| |exact IH|exact IH].
  rewrite IH. reflexivity.
Qed.

Lemma writes_app (ev1 ev2 : list event) : writes (ev1 ++ ev2) = writes ev1 ++ writes ev2.
Proof.
  induction ev1 as [|[p|p|l] ev1 IH]; simpl; [reflexivity|exact IH| |exact IH].
  rewrite IH. reflexivity.
Qed.

Lemma printed_app (ev1 ev2 : list event) :
  printed (ev1 ++ ev2) = printed ev1 ++ printed ev2.
Proof.
  induction ev1 as [|[p|p|l] ev1 IH]; simpl; [reflexivity|exact IH|exact IH|].
  rewrite IH. reflexivity.
Qed.

(** ** Loops *)

(** The rule of the [for] loop: an invariant of the elements done, the
    accumulator, the store and the trace, kept by a body that does not
    raise, holds of the whole list at the end. *)
Lemma for_each_rule {A B : Type} (body : A -> B -> io B)
    (I : list A -> B -> fs -> list event -> Prop) (l : list A) :
  (forall done a rest b s ev,
      l = done ++ a :: rest -> I done b s ev ->
      exists b' s' ev',
        body a b s = (inl b', s', ev') /\ I (done ++ [a]) b' s' (ev ++ ev')) ->
  forall b s, I [] b s [] ->
  exists b' s' ev', for_each l body b s = (inl b', s', ev') /\ I l b' s' ev'.
Proof.
  intro Hstep.
  assert (H : forall rest done b s ev,
             l = done ++ rest -> I done b s ev ->
             exists b' s' ev',
               for_each rest body b s = (inl b', s', ev') /\ I l b' s' (ev ++ ev')).
  { induction rest as [|a rest IH]; intros done b s ev Hl Hi.
    - exists b, s, []. split; [reflexivity|].
      rewrite app_nil_r in *. subst l. exact Hi.
    - destruct (Hstep done a rest b s ev Hl Hi) as [b1 [s1 [ev1 [Hb Hi1]]]].
      destruct (IH (done ++ [a]) b1 s1 (ev ++ ev1)) as [b2 [s2 [ev2 [Hf Hi2]]]].
      + rewrite <- app_assoc. exact Hl.
      + exact Hi1.
      + exists b2, s2, (ev1 ++ ev2). split.
        * cbn [for_each]. unfold bind at 1. rewrite Hb, Hf. reflexivity.
        * rewrite app_assoc. exact Hi2. }
  intros b s Hi. destruct (H l [] b s [] eq_refl Hi) as [b' [s' [ev' [Hf Hi']]]].
  exists b', s', ev'. split; assumption.
Qed.

(** ** One step of the inner loop *)

Lemma visit_run (a : path) (n : nat) (s : fs) :
  visit a n s =
  if should_process_file a && is_regular (files s a) then
    match update_file a s with
    | (inl true, s', ev) => (inl (S n), s', ev ++ [Printed (updated_line a)])
    | (inl false, s', ev) => (inl n, s', ev)
    | (inr e, s', ev) => (inr e, s', ev)
    end
  else (inl n, s, []).
Proof.
  unfold visit, bind, is_file, ret, print, emit, updated_line.
  destruct (should_process_file a); [|reflexivity].
  destruct (is_regular (files s a)); [|reflexivity]. cbn [andb app].
  destruct (update_file a s) as [[[[|]|e] s'] ev]; try reflexivity.
  rewrite app_nil_r. reflexivity.
Qed.

Lemma replacement_shape :
  exists mid, REPLACEMENT = SLASH :: mid ++ [LF] /\ contains SIGNATURE mid = false.
Proof.
  exists (removelast (tl REPLACEMENT)). split; vm_compute; reflexivity.
Qed.

Lemma signature_chars : ~ In SLASH SIGNATURE /\ ~ In LF SIGNATURE.
Proof.
  split; vm_compute; intro H;
    repeat (destruct H as [H|H]; [discriminate|]); exact H.
Qed.

(** The replacement brings no occurrence of the signature phrase, not
    even across its ends. *)
Lemma contains_signature_replaced (before rest : str) :
  contains SIGNATURE (before ++ REPLACEMENT ++ rest)
  = contains SIGNATURE before || contains SIGNATURE rest.
Proof.
  destruct replacement_shape as [mid [-> Hmid]].
  destruct signature_chars as [Hs Hl].
  change ((SLASH :: mid ++ [LF]) ++ rest) with (SLASH :: (mid ++ [LF]) ++ rest).
  rewrite <- app_assoc. cbn [app].
  rewrite (contains_absent _ _ _ _ Hs), (contains_absent _ _ _ _ Hl), Hmid.
  reflexivity.
Qed.

Lemma no_cr_app (a b : str) : ~ In CR (a ++ b) <-> ~ In CR a /\ ~ In CR b.
Proof.
  rewrite in_app_iff. tauto.
Qed.

Lemma replacement_no_cr : ~ In CR REPLACEMENT.
Proof.
  vm_compute. intro H. repeat (destruct H as [H|H]; [discriminate|]). exact H.
Qed.

(** Once a file whose signature phrase is in the header block only has
    been rewritten, in full or in part, [update_file] finds nothing to do
    on it. *)
Lemma quiet_after_write (f : file) (new_content : str) (n : nat) :
  signature_only_in_header (text_of f) = true ->
  rewritten (text_of f) = Some new_content ->
  quiet (with_data f (firstn n new_content)) = true.
Proof.
  intros Hc Hr. unfold quiet.
  change (read_fault (with_data f (firstn n new_content))) with (read_fault f).
  change (text_of (with_data f (firstn n new_content)))
    with (universal_newlines false (firstn n new_content)).
  destruct (read_fault f); [reflexivity|].
  destruct (rewritten_some _ _ Hr) as [_ [_ [_ [before [rest [Hs ->]]]]]].
  unfold signature_only_in_header in Hc. rewrite Hs in Hc.
  apply andb_true_iff in Hc. destruct Hc as [Hb Hrest].
  apply negb_true_iff in Hb. apply negb_true_iff in Hrest.
  destruct (search_found _ _ _ _ Hs) as [matched [Hx _]].
  assert (Hcr : ~ In CR (before ++ REPLACEMENT ++ rest)).
  { assert (H0 : ~ In CR (text_of f)) by apply universal_newlines_no_cr.
    rewrite Hx in H0. apply no_cr_app in H0. destruct H0 as [H1 H2].
    apply no_cr_app in H2. destruct H2 as [_ H2].
    apply no_cr_app. split; [exact H1|]. apply no_cr_app. split; [|exact H2].
    apply replacement_no_cr. }
  rewrite universal_newlines_id.
  - rewrite rewritten_no_signature; [reflexivity|].
    destruct (contains SIGNATURE (firstn n (before ++ REPLACEMENT ++ rest))) eqn:E;
      [|reflexivity].
    apply contains_firstn in E. rewrite contains_signature_replaced, Hb, Hrest in E.
    discriminate.
  - intro H. apply Hcr.
    rewrite <- (firstn_skipn n (before ++ REPLACEMENT ++ rest)).
    apply in_or_app. left. exact H.
Qed.

Lemma set_data_static (s : fs) (p q : path) (d : str) :
  fkind (files (set_data s p d) q) = fkind (files s q) /\
  read_fault (files (set_data s p d) q) = read_fault (files s q) /\
  wfault (files (set_data s p d) q) = wfault (files s q).
Proof.
  rewrite files_set_data.
  destruct (str_eqb (target s q) (target s p)); repeat split; reflexivity.
Qed.

Lemma is_regular_kind (f g : file) : fkind f = fkind g -> is_regular f = is_regular g.
Proof. unfold is_regular. intros ->. reflexivity. Qed.


Lemma effect_nothing (p : path) (s : fs) (ev : list event) :
  reads ev = [p] -> (forall q, In q (writes ev) -> q = p) ->
  quiet (files s p) = true -> effect p s false s ev.
Proof.
  intros Hr Hw Hq. constructor; auto.
  intros q H. unfold files. rewrite H. reflexivity.
Qed.

Lemma effect_stored (p : path) (s : fs) (b : bool) (n : nat)
    (new_content : str) (ev : list event) :
  reads ev = [p] -> (forall q, In q (writes ev) -> q = p) ->
  read_fault (files s p) = None ->
  rewritten (text_of (files s p)) = Some new_content ->
  (forall e, wfault (files s p) <> OpenFault e) ->
  effect p s b (set_data s p (firstn n new_content)) ev.
Proof.
  intros Hr Hw Hrf Hrw Hwf. constructor; auto.
  - intro q. apply set_data_static.
  - intro q. apply set_data_static.
  - intro q. apply set_data_static.
  - intros q Hq. apply files_set_data_other. exact Hq.
  - intros q Hq. apply files_set_data_alias. exact Hq.
  - unfold quiet. rewrite Hrf, Hrw. intro H.
    destruct (wfault (files s p)) as [|e|e k] eqn:E; try discriminate.
    exfalso. exact (Hwf e eq_refl).
  - intro Hc. rewrite files_set_data_same. apply quiet_after_write; assumption.
Qed.

Lemma update_file_effect (p : path) (s : fs) :
  exists b s' ev, update_file p s = (inl b, s', ev) /\ effect p s b s' ev.
Proof.
  rewrite update_file_run.
  assert (Hw0 : forall q, In q (writes [Read p]) -> q = p) by (intros q []).
  assert (Hw1 : forall l q, In q (writes [Read p; Written p; Printed l]) -> q = p).
  { intros l q [H|[]]. symmetry. exact H. }
  assert (Hw2 : forall q, In q (writes [Read p; Written p]) -> q = p).
  { intros q [H|[]]. symmetry. exact H. }
  destruct (read_fault (files s p)) as [e|] eqn:Hrf.
  { eexists _, _, _. split; [reflexivity|].
    apply effect_nothing; [reflexivity|intros q []|].
    unfold quiet. rewrite Hrf. reflexivity. }
  destruct (rewritten (text_of (files s p))) as [new_content|] eqn:Hrw.
  2:{ eexists _, _, _. split; [reflexivity|].
      apply effect_nothing; [reflexivity|exact Hw0|].
      unfold quiet. rewrite Hrf, Hrw. reflexivity. }
  destruct (wfault (files s p)) as [|e|e n] eqn:Hwf.
  - eexists _, _, _. split; [reflexivity|].
    rewrite newlines_out_id, <- (firstn_all new_content).
    apply effect_stored; try assumption; [reflexivity|].
    intros e. rewrite Hwf. discriminate.
  - eexists _, _, _. split; [reflexivity|].
    apply effect_nothing; [reflexivity|exact (Hw1 _)|].
    unfold quiet. rewrite Hrf, Hrw, Hwf. reflexivity.
  - eexists _, _, _. split; [reflexivity|].
    rewrite newlines_out_id.
    apply effect_stored; try assumption; [reflexivity|].
    intros e'. rewrite Hwf. discriminate.
Qed.

Lemma progress_start (s0 : fs) : progress s0 [] s0 [].
Proof.
  constructor; auto; intros; contradiction.
Qed.

(** A file handed to [update_file] extends what the run has established. *)
Lemma progress_update (s0 s s' : fs) (seen : list path) (ev ev' : list event)
    (a : path) (b : bool) :
  progress s0 seen s ev ->
  In a (candidates s0) ->
  effect a s b s' ev' ->
  progress s0 (seen ++ [a]) s' (ev ++ ev').
Proof.
  intros P Ha E.
  destruct P as [Ptree Ptarget Pkind Prf Pwf Preads Pwrites Puntouched Psettled Pquiet].
  destruct E as [Ereads Ewrites Etree Etarget Ekind Erf Ewf Eothers Ealias Equiet Esettles].
  assert (Hsame : forall p, target s p = target s a ->
                            quiet (files s' a) = true -> quiet (files s' p) = true).
  { intros p Hp Hq. rewrite (Ealias p Hp). exact Hq. }
  assert (Hqa : headers_only s0 -> quiet (files s' a) = true).
  { intro Hc. destruct (Psettled Hc a) as [Hq|He].
    - destruct (Equiet Hq) as [-> _]. exact Hq.
    - apply Esettles. rewrite He. apply Hc. exact Ha. }
  constructor.
  - congruence.
  - intro p. rewrite Etarget. apply Ptarget.
  - intro p. rewrite Ekind. apply Pkind.
  - intro p. rewrite Erf. apply Prf.
  - intro p. rewrite Ewf. apply Pwf.
  - rewrite reads_app. congruence.
  - intros p Hp. rewrite writes_app in Hp. apply in_app_iff.
    apply in_app_iff in Hp. destruct Hp as [Hp|Hp]; [left; auto|].
    right. left. symmetry. apply Ewrites. exact Hp.
  - intros p Hp. rewrite Eothers.
    + apply Puntouched. intros q Hq. apply Hp. apply in_app_iff. left. exact Hq.
    + rewrite !Ptarget. intro H. apply (Hp a); [|symmetry; exact H].
      apply in_app_iff. right. left. reflexivity.
  - intros Hc p.
    destruct (str_eqb (target s p) (target s a)) eqn:Epa.
    + apply str_eqb_eq in Epa. left. apply (Hsame p Epa). exact (Hqa Hc).
    + apply str_eqb_neq in Epa. rewrite (Eothers p Epa). apply Psettled. exact Hc.
  - intros Hc p Hp.
    destruct (str_eqb (target s p) (target s a)) eqn:Epa.
    + apply str_eqb_eq in Epa. apply (Hsame p Epa). exact (Hqa Hc).
    + apply str_eqb_neq in Epa. rewrite (Eothers p Epa).
      apply Pquiet; [exact Hc|].
      apply in_app_iff in Hp. destruct Hp as [Hp|[Hp|[]]]; [exact Hp|].
      subst p. contradiction.
Qed.

(** One round of the inner loop keeps what the run has established. *)
Lemma visit_progress (s0 s : fs) (seen : list path) (ev : list event)
    (a : path) (n : nat) :
  progress s0 seen s ev ->
  (selected s0 a = true -> In a (candidates s0)) ->
  exists n' s' ev',
    visit a n s = (inl n', s', ev') /\
    progress s0 (seen ++ filter (selected s0) [a]) s' (ev ++ ev').
Proof.
  intros P Ha. rewrite visit_run.
  assert (Hsel : should_process_file a && is_regular (files s a) = selected s0 a).
  { unfold selected. f_equal. apply is_regular_kind. apply (same_kind _ _ _ _ P). }
  rewrite Hsel. cbn [filter]. destruct (selected s0 a) eqn:Es.
  - destruct (update_file_effect a s) as [b [s' [ev' [Hu E]]]]. rewrite Hu.
    destruct b.
    + eexists _, _, _. split; [reflexivity|].
      apply (progress_update s0 s s' seen ev _ a true P (Ha eq_refl)).
      destruct E as [Ereads Ewrites Etree Etarget Ekind Erf Ewf Eothers Ealias Equiet Esettles].
      constructor; auto.
      * rewrite reads_app, Ereads. reflexivity.
      * intros q Hq. rewrite writes_app in Hq. cbn in Hq. rewrite app_nil_r in Hq. auto.
    + eexists _, _, _. split; [reflexivity|].
      apply (progress_update s0 s s' seen ev _ a false P (Ha eq_refl) E).
  - exists n, s, []. split; [reflexivity|]. rewrite !app_nil_r. exact P.
Qed.

Lemma in_candidates (s0 : fs) (ext : str) (a : path) :
  In ext extensions ->
  In a (filter (fun p => endswith ext (name p)) (tree s0)) ->
  selected s0 a = true ->
  In a (candidates s0).
Proof.
  intros He Ha Hs. unfold candidates. apply in_flat_map.
  exists ext. split; [exact He|]. apply filter_In. split; assumption.
Qed.

(** The inner loop, for one extension. *)
Lemma inner_loop_progress (s0 s : fs) (seen : list path) (ev : list event)
    (ext : str) (n : nat) :
  In ext extensions ->
  progress s0 seen s ev ->
  exists n' s' ev',
    (found <- rglob ext ;; for_each found visit n)%io s = (inl n', s', ev') /\
    progress s0
      (seen ++ filter (selected s0) (filter (fun p => endswith ext (name p)) (tree s0)))
      s' (ev ++ ev').
Proof.
  intros He P. unfold bind, rglob, ret. rewrite (same_tree _ _ _ _ P).
  set (found := filter (fun p => endswith ext (name p)) (tree s0)).
  destruct (for_each_rule visit
              (fun done n1 s1 ev1 =>
                 progress s0 (seen ++ filter (selected s0) done) s1 (ev ++ ev1))
              found) with (b := n) (s := s) as [n' [s' [ev' [Hf P']]]].
  - intros done a rest n1 s1 ev1 Hl P1.
    destruct (visit_progress s0 s1 _ _ a n1 P1) as [n2 [s2 [ev2 [Hv P2]]]].
    + intro Hs. apply (in_candidates s0 ext); [exact He| |exact Hs].
      fold found. rewrite Hl. apply in_elt.
    + exists n2, s2, ev2. split; [exact Hv|].
      rewrite filter_app, !app_assoc. rewrite <- !app_assoc in P2.
      rewrite <- !app_assoc. exact P2.
  - cbn [filter]. rewrite !app_nil_r. exact P.
  - exists n', s', ev'. split; [|exact P']. rewrite Hf. reflexivity.
Qed.

(** The run of [main]: it does not raise, it hands every candidate to
    [update_file], in order, and it ends with the summary line. *)
Lemma main_run (s0 : fs) :
  exists n s' ev,
    main s0 = (inl tt, s', ev ++ [Printed (total_line n)]) /\
    progress s0 (candidates s0) s' ev.
Proof.
  unfold main.
  destruct (for_each_rule
              (fun ext updated_count => (found <- rglob ext ;; for_each found visit updated_count)%io)
              (fun done _ s ev =>
                 progress s0
                   (flat_map
                      (fun ext => filter (selected s0)
                                    (filter (fun p => endswith ext (name p)) (tree s0)))
                      done) s ev)
              extensions) with (b := O) (s := s0) as [n [s' [ev [Hf P]]]].
  - intros done ext rest n s ev Hl P.
    assert (He : In ext extensions) by (rewrite Hl; apply in_elt).
    destruct (inner_loop_progress s0 s _ ev ext n He P) as [n' [s' [ev' [Hi P']]]].
    exists n', s', ev'. split; [exact Hi|].
    rewrite flat_map_app. cbn [flat_map]. rewrite app_nil_r. exact P'.
  - apply progress_start.
  - exists n, s', ev. split; [|exact P].
    unfold bind at 1. rewrite Hf. reflexivity.
Qed.

(** ** The text after the header block *)

(** C3, as the code has it: the text after the first header block is kept
    as text mode reads it, with every line end a line feed; it is kept
    character for character when the file has no carriage return. *)
Theorem update_file_keeps_following_text (s : fs) (p : path) (before rest : str) :
  read_fault (files s p) = None ->
  wfault (files s p) = NoFault ->
  contains SIGNATURE (text_of (files s p)) = true ->
  search MIT_LICENSE_PATTERN (text_of (files s p)) = Some (before, rest) ->
  exists matched,
    text_of (files s p) = before ++ matched ++ rest /\
    match_here MIT_LICENSE_PATTERN (matched ++ rest) = Some rest /\
    data (files (store_of (update_file p s)) p) = before ++ REPLACEMENT ++ rest /\
    (~ In CR (data (files s p)) -> data (files s p) = before ++ matched ++ rest).
Proof.
  intros Hr Hw Hs Hm.
  destruct (search_found _ _ _ _ Hm) as [matched [Hx [Hmm _]]].
  exists matched. split; [exact Hx|]. split; [exact Hmm|]. split.
  - rewrite update_file_run, Hr, (rewritten_match _ _ _ Hs Hm), Hw.
    unfold store_of. cbn [fst snd]. rewrite files_set_data_same, newlines_out_id.
    reflexivity.
  - intro Hcr. rewrite <- Hx. unfold text_of.
    symmetry. apply universal_newlines_id. exact Hcr.
Qed.

Lemma update_file_keeps_following_text_witness :
  read_fault (files one_header a_ts) = None /\
  wfault (files one_header a_ts) = NoFault /\
  contains SIGNATURE (text_of (files one_header a_ts)) = true /\
  search MIT_LICENSE_PATTERN (text_of (files one_header a_ts)) = Some ([], CODE) /\
  exists matched,
    text_of (files one_header a_ts) = [] ++ matched ++ CODE /\
    match_here MIT_LICENSE_PATTERN (matched ++ CODE) = Some CODE /\
    data (files (store_of (update_file a_ts one_header)) a_ts) = [] ++ REPLACEMENT ++ CODE /\
    (~ In CR (data (files one_header a_ts)) ->
     data (files one_header a_ts) = [] ++ matched ++ CODE).
Proof.
  split; [reflexivity|]. split; [reflexivity|].
  split; [vm_compute; reflexivity|]. split; [vm_compute; reflexivity|].
  apply (update_file_keeps_following_text one_header a_ts [] CODE).
  - reflexivity.
  - reflexivity.
  - vm_compute. reflexivity.
  - vm_compute. reflexivity.
Defined.

(** C3, as it is stated, fails: a file whose code line ends in a carriage
    return and a line feed has the pattern match its header block, and
    after the run its content no longer ends with the text that followed
    the block. *)
Lemma crlf_tail_not_kept :
  ~ (forall (s : fs) (p : path) (before rest : str),
       read_fault (files s p) = None ->
       wfault (files s p) = NoFault ->
       contains SIGNATURE (data (files s p)) = true ->
       search MIT_LICENSE_PATTERN (data (files s p)) = Some (before, rest) ->
       exists head, data (files (store_of (update_file p s)) p) = head ++ rest).
Proof.
  intro H.
  destruct (H crlf_tail a_ts [] (text "export const x = 1;" ++ [CR; LF]))
    as [head Hh]; try (vm_compute; reflexivity).
  assert (E : endswith (text "export const x = 1;" ++ [CR; LF])
                (data (files (store_of (update_file a_ts crlf_tail)) a_ts)) = false)
    by (vm_compute; reflexivity).
  rewrite Hh, endswith_app in E. discriminate.
Qed.

(** ** Files without the signature phrase *)

(** C4: a file whose content lacks the signature phrase is not written,
    the store is as before, and the answer is [False]. *)
Theorem update_file_without_signature (s : fs) (p : path) :
  contains SIGNATURE (data (files s p)) = false ->
  exists ev,
    update_file p s = (inl false, s, ev) /\ writes ev = [] /\ reads ev = [p].
Proof.
  intro H. rewrite update_file_run.
  destruct (read_fault (files s p)) as [e|].
  - eexists. repeat split.
  - rewrite rewritten_no_signature.
    + eexists. repeat split.
    + unfold text_of. rewrite signature_as_read. exact H.
Qed.

Lemma update_file_without_signature_witness :
  contains SIGNATURE (data (files plain a_ts)) = false /\
  exists ev,
    update_file a_ts plain = (inl false, plain, ev) /\
    writes ev = [] /\ reads ev = [a_ts].
Proof.
  split; [vm_compute; reflexivity|].
  apply (update_file_without_signature plain a_ts).
  vm_compute. reflexivity.
Defined.

(** ** When the file is written *)



(** ** Exceptions *)

(** What the body of the [try] does, by what the file is. *)
Lemma update_file_try_run (p : path) (s : fs) :
  update_file_try p s =
  match read_fault (files s p) with
  | Some e => (inr e, s, [Read p])
  | None =>
      match rewritten (text_of (files s p)) with
      | None => (inl None, s, [Read p])
      | Some new_content =>
          match wfault (files s p) with
          | NoFault =>
              (inl (Some true), set_data s p (newlines_out new_content),
               [Read p; Written p])
          | OpenFault e => (inr e, s, [Read p; Written p])
          | IOFault e n =>
              (inr e, set_data s p (firstn n (newlines_out new_content)),
               [Read p; Written p])
          end
      end
  end.
Proof.
  unfold_io. unfold rewritten, substituted, text_of.
  destruct (read_fault (files s p)) as [e|]; [reflexivity|].
  fold REPLACEMENT.
  destruct (contains SIGNATURE (universal_newlines false (data (files s p)))); [|reflexivity].
  destruct (str_eqb _ _); [reflexivity|]. cbn [negb].
  destruct (wfault (files s p)); reflexivity.
Qed.



(** ** A write that fails *)

(** C9, as the code has it: when the file cannot be opened for writing
    the store is as before; when the write fails after the file was
    opened, and so truncated, the file holds what was written of the new
    content until then. *)
Theorem update_file_failed_write (s : fs) (p : path) (e : str) :
  read_fault (files s p) = None ->
  value_of (update_file_try p s) = inr e ->
  match wfault (files s p) with
  | NoFault => False
  | OpenFault _ => store_of (update_file p s) = s
  | IOFault _ n =>
      exists new_content,
        rewritten (text_of (files s p)) = Some new_content /\
        data (files (store_of (update_file p s)) p) = firstn n new_content
  end.
Proof.
  intro Hr. rewrite update_file_try_run, update_file_run, Hr.
  destruct (rewritten (text_of (files s p))) as [new_content|]; [|discriminate].
  destruct (wfault (files s p)) as [|e1|e1 n]; [discriminate| |].
  - intros _. reflexivity.
  - intros _. exists new_content. split; [reflexivity|].
    unfold store_of. cbn [fst snd]. rewrite files_set_data_same, newlines_out_id.
    reflexivity.
Qed.

Lemma update_file_failed_write_witness :
  read_fault (files read_only a_ts) = None /\
  value_of (update_file_try a_ts read_only) = inr (text "[Errno 13] Permission denied") /\
  store_of (update_file a_ts read_only) = read_only.
Proof.
  split; [reflexivity|]. split; [vm_compute; reflexivity|].
  apply (update_file_failed_write read_only a_ts (text "[Errno 13] Permission denied")).
  - reflexivity.
  - vm_compute. reflexivity.
Defined.

(** C9, as it is stated, fails: on a full disk the file is opened for
    writing, which empties it, the write raises, and the content read
    before is gone. *)
Lemma disk_full_loses_content :
  ~ (forall (s : fs) (p : path) (e : str),
       read_fault (files s p) = None ->
       value_of (update_file_try p s) = inr e ->
       data (files (store_of (update_file p s)) p) = data (files s p)).
Proof.
  intro H.
  specialize (H disk_full a_ts (text "[Errno 28] No space left on device")).
  assert (H1 : read_fault (files disk_full a_ts) = None) by reflexivity.
  assert (H2 : value_of (update_file_try a_ts disk_full)
               = inr (text "[Errno 28] No space left on device"))
    by (vm_compute; reflexivity).
  specialize (H H1 H2).
  assert (E : str_eqb (data (files (store_of (update_file a_ts disk_full)) a_ts))
                (data (files disk_full a_ts)) = false)
    by (vm_compute; reflexivity).
  apply str_eqb_neq in E. exact (E H).
Qed.

(** ** A header block in the middle of a file *)

(** What the matcher reads at a position is a text of the regular
    expression. *)
Lemma match_here_matches (r : regex) (x rest : str) :
  match_here r x = Some rest ->
  exists matched, x = matched ++ rest /\ matches r matched.
Proof.
  unfold match_here. intro H. apply run_matches in H.
  destruct H as [m [y [Hx [Hm Hy]]]]. injection Hy as ->.
  exists m. split; assumption.
Qed.

(** C10: the match need not start the file.  When a header block follows
    text in which no match starts, the file holds after [update_file] that
    text, the proprietary header with two line feeds in place of the
    block, and what followed the block; the block that is replaced is a
    text of the header pattern, and the answer is [True]. *)
Theorem update_file_rewrites_header_mid_file (s : fs) (p : path)
    (junk block rest : str) :
  read_fault (files s p) = None ->
  wfault (files s p) = NoFault ->
  text_of (files s p) = junk ++ block ->
  contains SIGNATURE (junk ++ block) = true ->
  match_here MIT_LICENSE_PATTERN block = Some rest ->
  (forall a c b, junk = a ++ c :: b ->
                 match_here MIT_LICENSE_PATTERN (c :: b ++ block) = None) ->
  (exists matched, block = matched ++ rest /\ matches MIT_LICENSE_PATTERN matched) /\
  value_of (update_file p s) = inl true /\
  writes (events_of (update_file p s)) = [p] /\
  data (files (store_of (update_file p s)) p)
  = junk ++ (PROPRIETARY_HEADER ++ [LF; LF]) ++ rest.
Proof.
  intros Hr Hw Ht Hs Hm Hno.
  assert (Hsearch : search MIT_LICENSE_PATTERN (text_of (files s p)) = Some (junk, rest)).
  { rewrite Ht. apply search_at; [exact Hm|]. intros a1 c a2 E. apply (Hno a1 c a2 E). }
  rewrite <- Ht in Hs.
  split; [exact (match_here_matches _ _ _ Hm)|].
  rewrite (update_file_rewrites _ _ _ _ Hr Hw Hs Hsearch).
  unfold value_of, events_of, store_of. cbn [fst snd writes].
  rewrite data_set_data_same. repeat split.
Qed.

Lemma update_file_rewrites_header_mid_file_witness :
  read_fault (files header_mid_file a_ts) = None /\
  wfault (files header_mid_file a_ts) = NoFault /\
  text_of (files header_mid_file a_ts) = NOTE ++ MIT_HEADER ++ CODE /\
  contains SIGNATURE (NOTE ++ MIT_HEADER ++ CODE) = true /\
  match_here MIT_LICENSE_PATTERN (MIT_HEADER ++ CODE) = Some CODE /\
  (exists matched,
      MIT_HEADER ++ CODE = matched ++ CODE /\ matches MIT_LICENSE_PATTERN matched) /\
  value_of (update_file a_ts header_mid_file) = inl true /\
  writes (events_of (update_file a_ts header_mid_file)) = [a_ts] /\
  data (files (store_of (update_file a_ts header_mid_file)) a_ts)
  = NOTE ++ (PROPRIETARY_HEADER ++ [LF; LF]) ++ CODE.
Proof.
  split; [reflexivity|]. split; [reflexivity|].
  split; [vm_compute; reflexivity|]. split; [vm_compute; reflexivity|].
  split; [vm_compute; reflexivity|].
  apply (update_file_rewrites_header_mid_file header_mid_file a_ts NOTE
           (MIT_HEADER ++ CODE) CODE).
  - reflexivity.
  - reflexivity.
  - vm_compute. reflexivity.
  - vm_compute. reflexivity.
  - vm_compute. reflexivity.
  - intros a c b E.
    assert (Hs : forall k, (k < List.length NOTE)%nat ->
                  match_here MIT_LICENSE_PATTERN (skipn k NOTE ++ MIT_HEADER ++ CODE) = None).
    { intros k Hk.
      assert (HL : List.length NOTE = 10%nat) by reflexivity. rewrite HL in Hk.
      do 10 (destruct k as [|k]; [vm_compute; reflexivity|]). lia. }
    specialize (Hs (List.length a)).
    rewrite E in Hs. rewrite skipn_app, skipn_all, Nat.sub_diag in Hs.
    cbn [skipn app] in Hs. apply Hs.
    rewrite length_app. cbn [List.length]. lia.
Defined.

(** ** The files of a run *)

Lemma in_candidates_inv (s0 : fs) (p : path) :
  In p (candidates s0) ->
  exists ext,
    In ext extensions /\ endswith ext (name p) = true /\
    In p (tree s0) /\ selected s0 p = true.
Proof.
  unfold candidates. intro H. apply in_flat_map in H.
  destruct H as [ext [He H]]. apply filter_In in H. destruct H as [H Hs].
  apply filter_In in H. destruct H as [Ht Hn].
  exists ext. repeat split; assumption.
Qed.

Lemma candidates_same (s s0 : fs) :
  tree s = tree s0 ->
  (forall p, fkind (files s p) = fkind (files s0 p)) ->
  candidates s = candidates s0.
Proof.
  intros Ht Hk. unfold candidates. rewrite Ht.
  apply flat_map_ext. intro ext. apply filter_ext. intro p.
  unfold selected. f_equal. apply is_regular_kind. apply Hk.
Qed.

Lemma selected_regular (s : fs) (p : path) :
  selected s p = true -> should_process_file p = true /\ fkind (files s p) = Regular.
Proof.
  unfold selected, is_regular. intro H. apply andb_true_iff in H.
  destruct H as [H1 H2]. split; [exact H1|].
  destruct (fkind (files s p)); [reflexivity | discriminate | discriminate].
Qed.

Lemma excluded_not_processed (p excl : path) :
  In excl exclusions -> contains excl p = true -> should_process_file p = false.
Proof.
  intros Hi Hc. unfold should_process_file. apply negb_false_iff.
  apply existsb_exists. exists excl. split; assumption.
Qed.

Lemma main_events (s0 : fs) :
  exists n s' ev,
    main s0 = (inl tt, s', ev ++ [Printed (total_line n)]) /\
    progress s0 (candidates s0) s' ev /\
    reads (events_of (main s0)) = reads ev /\
    writes (events_of (main s0)) = writes ev.
Proof.
  destruct (main_run s0) as [n [s' [ev [H P]]]].
  exists n, s', ev. rewrite H. unfold events_of. cbn [snd].
  rewrite reads_app, writes_app. cbn [reads writes]. rewrite !app_nil_r.
  split; [reflexivity|]. split; [exact P|]. split; reflexivity.
Qed.

(** C6: a path that contains one of the exclusion substrings is neither
    opened for reading nor for writing by a run of [main].  The file that
    it names holds after the run what it held before, provided that no
    path that the run selects names the same file. *)
Theorem excluded_paths_never_opened (s0 : fs) (p excl : path) :
  In excl exclusions ->
  contains excl p = true ->
  ~ In p (reads (events_of (main s0))) /\
  ~ In p (writes (events_of (main s0))) /\
  ((forall q, In q (candidates s0) -> target s0 q <> target s0 p) ->
   files (store_of (main s0)) p = files s0 p).
Proof.
  intros Hi Hc.
  destruct (main_events s0) as [n [s' [ev [H [P [Hr Hw]]]]]].
  assert (Hnot : ~ In p (candidates s0)).
  { intro Hin. destruct (in_candidates_inv _ _ Hin) as [ext [_ [_ [_ Hs]]]].
    apply selected_regular in Hs. destruct Hs as [Hs _].
    rewrite (excluded_not_processed p excl Hi Hc) in Hs. discriminate. }
  rewrite Hr, Hw. split; [|split].
  - rewrite (reads_seen _ _ _ _ P). exact Hnot.
  - intro Hin. apply Hnot. apply (writes_seen _ _ _ _ P). exact Hin.
  - intro Hsep. rewrite H. unfold store_of. cbn [fst snd].
    apply (untouched _ _ _ _ P). exact Hsep.
Qed.

Lemma excluded_paths_never_opened_witness :
  In (text "node_modules") exclusions /\
  contains (text "node_modules") index_js = true /\
  (forall q, In q (candidates project) -> target project q <> target project index_js) /\
  ~ In index_js (reads (events_of (main project))) /\
  ~ In index_js (writes (events_of (main project))) /\
  files (store_of (main project)) index_js = files project index_js.
Proof.
  assert (Hsep : forall q, In q (candidates project) ->
                           target project q <> target project index_js).
  { assert (Hc : candidates project = [a_ts]) by (vm_compute; reflexivity).
    rewrite Hc. intros q [<-|[]]. cbn [target project tree_of].
    apply str_eqb_neq. vm_compute. reflexivity. }
  split; [left; reflexivity|]. split; [vm_compute; reflexivity|].
  split; [exact Hsep|].
  destruct (excluded_paths_never_opened project index_js (text "node_modules"))
    as [Hr [Hw Hf]].
  - left. reflexivity.
  - vm_compute. reflexivity.
  - split; [exact Hr|]. split; [exact Hw|]. exact (Hf Hsep).
Defined.

(** The proviso of C6 cannot be dropped: in [linked] the path
    [src/link.js] names the file of [node_modules/lib/index.js], passes
    the filters, and the run rewrites the file through it. *)
Lemma linked_excluded_file_rewritten :
  In (text "node_modules") exclusions /\
  contains (text "node_modules") index_js = true /\
  ~ In index_js (reads (events_of (main linked))) /\
  ~ In index_js (writes (events_of (main linked))) /\
  data (files linked index_js) = MIT_HEADER ++ CODE /\
  data (files (store_of (main linked)) index_js)
  = PROPRIETARY_HEADER ++ [LF; LF] ++ CODE /\
  files (store_of (main linked)) index_js <> files linked index_js.
Proof.
  assert (Hr : reads (events_of (main linked)) = [link_js]) by (vm_compute; reflexivity).
  assert (Hw : writes (events_of (main linked)) = [link_js]) by (vm_compute; reflexivity).
  assert (Hne : index_js <> link_js) by (apply str_eqb_neq; vm_compute; reflexivity).
  assert (Hd : data (files (store_of (main linked)) index_js)
               = PROPRIETARY_HEADER ++ [LF; LF] ++ CODE) by (vm_compute; reflexivity).
  split; [left; reflexivity|]. split; [vm_compute; reflexivity|].
  split; [rewrite Hr; intros [E|[]]; apply Hne; symmetry; exact E|].
  split; [rewrite Hw; intros [E|[]]; apply Hne; symmetry; exact E|].
  split; [reflexivity|]. split; [exact Hd|].
  intro E. apply (f_equal data) in E. rewrite Hd in E.
  assert (Hx : str_eqb (PROPRIETARY_HEADER ++ [LF; LF] ++ CODE)
                       (data (files linked index_js)) = false)
    by (vm_compute; reflexivity).
  apply str_eqb_neq in Hx. apply Hx. exact E.
Qed.

(** C7: every path that a run of [main] opens, for reading or for
    writing, is an entry of the tree whose name ends with one of the four
    extensions and which is a regular file. *)
Theorem opened_paths_are_source_files (s0 : fs) (p : path) :
  In p (reads (events_of (main s0))) \/ In p (writes (events_of (main s0))) ->
  (exists ext, In ext extensions /\ endswith ext (name p) = true) /\
  fkind (files s0 p) = Regular /\
  In p (tree s0).
Proof.
  intro Hin.
  destruct (main_events s0) as [n [s' [ev [H [P [Hr Hw]]]]]].
  rewrite Hr, Hw in Hin.
  assert (Hc : In p (candidates s0)).
  { destruct Hin as [Hin|Hin].
    - rewrite (reads_seen _ _ _ _ P) in Hin. exact Hin.
    - apply (writes_seen _ _ _ _ P). exact Hin. }
  destruct (in_candidates_inv _ _ Hc) as [ext [He [Hn [Ht Hs]]]].
  apply selected_regular in Hs. destruct Hs as [_ Hk].
  split; [exists ext; split; assumption|]. split; assumption.
Qed.

Lemma opened_paths_are_source_files_witness :
  In a_ts (reads (events_of (main project))) /\
  (exists ext, In ext extensions /\ endswith ext (name a_ts) = true) /\
  fkind (files project a_ts) = Regular /\
  In a_ts (tree project).
Proof.
  assert (Hr : reads (events_of (main project)) = [a_ts]) by (vm_compute; reflexivity).
  assert (Hin : In a_ts (reads (events_of (main project)))).
  { rewrite Hr. left. reflexivity. }
  split; [exact Hin|].
  apply (opened_paths_are_source_files project a_ts). left. exact Hin.
Defined.

(** ** A second run *)

Lemma update_file_quiet (p : path) (s : fs) :
  quiet (files s p) = true ->
  exists ev,
    update_file p s = (inl false, s, ev) /\
    forall l, In l (printed ev) -> exists e, l = error_line p e.
Proof.
  unfold quiet. rewrite update_file_run.
  destruct (read_fault (files s p)) as [e|].
  - intros _. eexists. split; [reflexivity|].
    intros l [<-|[]]. exists e. reflexivity.
  - destruct (rewritten (text_of (files s p))).
    + destruct (wfault (files s p)) as [|e|e n]; try discriminate.
      intros _. eexists. split; [reflexivity|].
      intros l [<-|[]]. exists e. reflexivity.
    + intros _. eexists. split; [reflexivity|]. intros l [].
Qed.

Lemma error_line_not_updated (p q : path) (e : str) : error_line p e <> updated_line q.
Proof. unfold error_line, updated_line. cbn. discriminate. Qed.

(** On a store whose candidates are all quiet, [main] changes nothing
    and counts no update. *)
Lemma main_quiet (s : fs) :
  (forall p, In p (candidates s) -> quiet (files s p) = true) ->
  exists ev,
    main s = (inl tt, s, ev ++ [Printed (total_line 0)]) /\
    forall p, ~ In (updated_line p) (printed ev).
Proof.
  intro Hq. unfold main.
  set (I := fun (n : nat) (s1 : fs) (ev : list event) =>
              n = O /\ s1 = s /\
              forall l, In l (printed ev) -> exists p e, l = error_line p e).
  destruct (for_each_rule
              (fun ext updated_count =>
                 (found <- rglob ext ;; for_each found visit updated_count)%io)
              (fun _ n s1 ev => I n s1 ev) extensions)
    with (b := O) (s := s) as [n [s' [ev [Hf [Hn [Hs Hp]]]]]].
  - intros done ext rest n s1 ev Hl [-> [-> Hp]].
    assert (He : In ext extensions) by (rewrite Hl; apply in_elt).
    unfold bind at 1. unfold rglob at 1, ret at 1.
    set (found := filter (fun p => endswith ext (name p)) (tree s)).
    destruct (for_each_rule visit (fun _ n s1 ev1 => I n s1 (ev ++ ev1)) found)
      with (b := O) (s := s) as [n' [s' [ev' [Hf HI]]]].
    + intros done' a rest' n1 s1 ev1 Hl' [-> [-> Hp1]].
      rewrite visit_run. destruct (should_process_file a && is_regular (files s a)) eqn:Es.
      * assert (Ha : In a (candidates s)).
        { apply (in_candidates s ext); [exact He| |exact Es].
          fold found. rewrite Hl'. apply in_elt. }
        destruct (update_file_quiet a s (Hq a Ha)) as [ev2 [Hu Hp2]].
        rewrite Hu. exists O, s, ev2. split; [reflexivity|].
        split; [reflexivity|]. split; [reflexivity|].
        intros l Hin. rewrite app_assoc, printed_app in Hin.
        apply in_app_iff in Hin. destruct Hin as [Hin|Hin]; [exact (Hp1 l Hin)|].
        destruct (Hp2 l Hin) as [e ->]. exists a, e. reflexivity.
      * exists O, s, []. split; [reflexivity|].
        split; [reflexivity|]. split; [reflexivity|].
        rewrite !app_nil_r. exact Hp1.
    + split; [reflexivity|]. split; [reflexivity|]. rewrite app_nil_r. exact Hp.
    + exists n', s', ev'. split; [|exact HI]. rewrite Hf. reflexivity.
  - split; [reflexivity|]. split; [reflexivity|]. intros l [].
  - subst n s'. exists ev. split.
    + unfold bind at 1. rewrite Hf. reflexivity.
    + intros p Hin. destruct (Hp _ Hin) as [q [e He]].
      symmetry in He. exact (error_line_not_updated q p e He).
Qed.

(** C2, as the code has it: when the signature phrase of every file of
    the run is in its first header block only, a second run of [main]
    leaves the store of the first run as it is, prints no update and
    counts none. *)
Theorem main_twice_same (s0 : fs) :
  headers_only s0 ->
  exists ev,
    main (store_of (main s0))
      = (inl tt, store_of (main s0), ev ++ [Printed (total_line 0)]) /\
    forall p, ~ In (updated_line p) (printed ev).
Proof.
  intro Hc. destruct (main_run s0) as [n [s1 [ev1 [H P]]]].
  rewrite H. unfold store_of. cbn [fst snd].
  apply main_quiet. intros p Hp.
  rewrite (candidates_same s1 s0 (same_tree _ _ _ _ P) (same_kind _ _ _ _ P)) in Hp.
  apply (seen_quiet _ _ _ _ P Hc). exact Hp.
Qed.

Lemma one_header_headers_only : headers_only one_header.
Proof.
  intros p Hp.
  assert (Hcand : candidates one_header = [a_ts]) by (vm_compute; reflexivity).
  rewrite Hcand in Hp. destruct Hp as [<-|[]]. vm_compute. reflexivity.
Qed.

Lemma main_twice_same_witness :
  headers_only one_header /\
  exists ev,
    main (store_of (main one_header))
      = (inl tt, store_of (main one_header), ev ++ [Printed (total_line 0)]) /\
    forall p, ~ In (updated_line p) (printed ev).
Proof.
  split; [exact one_header_headers_only|].
  apply (main_twice_same one_header). exact one_header_headers_only.
Defined.

(** C2, as it is stated, fails: in a file with two header blocks the
    first run replaces the first block and leaves the signature phrase of
    the second; the second run replaces that one too, changes the file
    again and counts one update. *)
Lemma two_headers_rewritten_again :
  contains SIGNATURE (data (files (store_of (main two_headers)) a_ts)) = true /\
  data (files (store_of (main (store_of (main two_headers)))) a_ts)
    <> data (files (store_of (main two_headers)) a_ts) /\
  printed (events_of (main (store_of (main two_headers))))
    = [updated_line a_ts; total_line 1].
Proof.
  split; [vm_compute; reflexivity|]. split; [|vm_compute; reflexivity].
  apply str_eqb_neq. vm_compute. reflexivity.
Qed.

(** ** The exclusion test *)

Lemma startswith_spec (sub x : str) :
  startswith sub x = true <-> exists b, x = sub ++ b.
Proof.
  split.
  - revert x. induction sub as [|c sub IH]; intros x H.
    + exists x. reflexivity.
    + destruct x as [|d x]; [discriminate|]. cbn [startswith] in H.
      apply andb_true_iff in H. destruct H as [Hc H]. apply Z.eqb_eq in Hc. subst d.
      destruct (IH x H) as [b ->]. exists b. reflexivity.
  - intros [b ->]. apply startswith_app.
Qed.

(** [sub in x] holds exactly when [x] is some text, then [sub], then some
    text. *)
Lemma contains_spec (sub x : str) :
  contains sub x = true <-> exists a b, x = a ++ sub ++ b.
Proof.
  split.
  - induction x as [|d x IH]; cbn [contains]; intro H.
    + apply startswith_spec in H. destruct H as [b Hb]. exists [], b. exact Hb.
    + apply orb_true_iff in H. destruct H as [H|H].
      * apply startswith_spec in H. destruct H as [b Hb]. exists [], b. exact Hb.
      * destruct (IH H) as [a [b ->]]. exists (d :: a), b. reflexivity.
  - intros [a [b ->]]. induction a as [|d a IH].
    + cbn [app]. destruct (sub ++ b) as [|d y] eqn:E.
      * cbn [contains]. rewrite <- E. apply startswith_app.
      * cbn [contains]. rewrite <- E. rewrite startswith_app. reflexivity.
    + cbn [app contains]. rewrite IH. apply orb_true_r.
Qed.

(** X1: [should_process_file] turns a path down exactly when one of the
    exclusion strings occurs somewhere in it, across the bounds of its
    components or not. *)
Theorem should_process_file_false_iff (p : path) :
  should_process_file p = false <->
  exists excl a b, In excl exclusions /\ p = a ++ excl ++ b.
Proof.
  unfold should_process_file. rewrite negb_false_iff, existsb_exists. split.
  - intros [excl [Hi Hc]]. apply contains_spec in Hc. destruct Hc as [a [b Hp]].
    exists excl, a, b. split; assumption.
  - intros [excl [a [b [Hi Hp]]]]. exists excl. split; [exact Hi|].
    apply contains_spec. exists a, b. exact Hp.
Qed.

(** X2: a path that is turned down stays turned down inside any longer
    path: what lies below an excluded directory is excluded at any depth,
    and so is what has an excluded name as a part of its own. *)
Theorem should_process_file_false_extends (p a b : path) :
  should_process_file p = false ->
  should_process_file (a ++ p ++ b) = false.
Proof.
  unfold should_process_file. rewrite !negb_false_iff, !existsb_exists.
  intros [excl [Hi Hc]]. exists excl. split; [exact Hi|].
  apply contains_spec in Hc. destruct Hc as [a' [b' ->]].
  apply contains_spec. exists (a ++ a'), (b' ++ b).
  rewrite <- !app_assoc. reflexivity.
Qed.

Lemma should_process_file_false_extends_witness :
  should_process_file (text "dist") = false /\
  should_process_file (text "src/" ++ text "dist" ++ text "ance.ts") = false.
Proof.
  split; [vm_compute; reflexivity|].
  apply (should_process_file_false_extends (text "dist") (text "src/") (text "ance.ts")).
  vm_compute. reflexivity.
Defined.

Lemma contains_longer (sub sub' x : str) :
  contains sub sub' = true -> contains sub' x = true -> contains sub x = true.
Proof.
  intros H1 H2. apply contains_spec in H1. apply contains_spec in H2.
  destruct H1 as [a [b ->]]. destruct H2 as [a' [b' ->]].
  apply contains_spec. exists (a' ++ a), (b ++ b'). rewrite <- !app_assoc. reflexivity.
Qed.

(** X3: the entry [electron/node_modules] of the exclusion list decides
    nothing: a path that has it has [node_modules], and the test is the
    same without it. *)
Theorem electron_node_modules_redundant (p : path) :
  should_process_file p
  = negb (existsb (fun excl => contains excl p) exclusions_without_electron_node_modules).
Proof.
  unfold should_process_file, exclusions, exclusions_without_electron_node_modules.
  cbn [existsb]. f_equal.
  destruct (contains (text "electron/node_modules") p) eqn:E.
  - assert (H : contains (text "node_modules") p = true).
    { apply (contains_longer _ (text "electron/node_modules")); [|exact E].
      vm_compute. reflexivity. }
    rewrite H. reflexivity.
  - destruct (contains (text "node_modules") p); destruct (contains (text "dist") p);
      reflexivity.
Qed.

(** ** More on one call of [update_file] *)

(** X4: [update_file] changes one file only, the one that its path
    names: a path that names another file holds after the call what it
    held before.  Two paths that name one file, as a link and what it
    points to, are not covered: they change together. *)
Theorem update_file_frame (s : fs) (p q : path) :
  target s q <> target s p ->
  files (store_of (update_file p s)) q = files s q.
Proof.
  intro Hq.
  destruct (update_file_effect p s) as [b [s' [ev [H E]]]]. rewrite H.
  unfold store_of. cbn [fst snd].
  apply (eff_others _ _ _ _ _ E). exact Hq.
Qed.

Lemma update_file_frame_witness :
  target project index_js <> target project a_ts /\
  files (store_of (update_file a_ts project)) index_js = files project index_js.
Proof.
  assert (H : target project index_js <> target project a_ts).
  { cbn [target project tree_of]. apply str_eqb_neq. vm_compute. reflexivity. }
  split; [exact H|]. apply (update_file_frame project a_ts index_js H).
Defined.

Lemma update_file_true_inv (s : fs) (p : path) :
  value_of (update_file p s) = inl true ->
  read_fault (files s p) = None /\
  wfault (files s p) = NoFault /\
  contains SIGNATURE (text_of (files s p)) = true /\
  exists before rest,
    search MIT_LICENSE_PATTERN (text_of (files s p)) = Some (before, rest).
Proof.
  rewrite update_file_run. unfold value_of.
  destruct (read_fault (files s p)) as [e|]; [discriminate|].
  destruct (rewritten (text_of (files s p))) as [new_content|] eqn:Hrw; [|discriminate].
  destruct (rewritten_some _ _ Hrw) as [Hs [_ [_ [before [rest [Hm _]]]]]].
  destruct (wfault (files s p)); try discriminate.
  intros _. repeat split; try assumption. exists before, rest. exact Hm.
Qed.

Lemma text_of_set_data_same (s : fs) (p : path) (d : str) :
  text_of (files (set_data s p d) p) = universal_newlines false d.
Proof. rewrite files_set_data_same. reflexivity. Qed.

(** X5: [update_file] answers [True] exactly when the file can be read, has
    the signature phrase and a match of the pattern somewhere, and can be
    written in full; a match always changes the content, so it is never
    found and left. *)
Theorem update_file_true_iff (s : fs) (p : path) :
  value_of (update_file p s) = inl true <->
  read_fault (files s p) = None /\
  contains SIGNATURE (text_of (files s p)) = true /\
  search MIT_LICENSE_PATTERN (text_of (files s p)) <> None /\
  wfault (files s p) = NoFault.
Proof.
  split.
  - intro H. destruct (update_file_true_inv _ _ H) as [Hr [Hw [Hs [before [rest Hm]]]]].
    repeat split; try assumption. rewrite Hm. discriminate.
  - intros [Hr [Hs [Hm Hw]]].
    destruct (search MIT_LICENSE_PATTERN (text_of (files s p))) as [[before rest]|] eqn:E;
      [|contradiction].
    rewrite (update_file_rewrites _ _ _ _ Hr Hw Hs E). reflexivity.
Qed.

(** X6: the replacement brings no signature phrase with it, not even
    across its two ends: the file that [update_file] has rewritten has
    the phrase exactly when the text before the replaced block or the
    text after it has. *)
Theorem update_file_signature_after (s : fs) (p : path) (before rest : str) :
  read_fault (files s p) = None ->
  wfault (files s p) = NoFault ->
  contains SIGNATURE (text_of (files s p)) = true ->
  search MIT_LICENSE_PATTERN (text_of (files s p)) = Some (before, rest) ->
  contains SIGNATURE (data (files (store_of (update_file p s)) p))
  = contains SIGNATURE before || contains SIGNATURE rest.
Proof.
  intros Hr Hw Hs Hm. rewrite (update_file_rewrites _ _ _ _ Hr Hw Hs Hm).
  unfold store_of. cbn [fst snd]. rewrite data_set_data_same.
  apply contains_signature_replaced.
Qed.

Lemma update_file_signature_after_witness :
  read_fault (files two_headers a_ts) = None /\
  wfault (files two_headers a_ts) = NoFault /\
  contains SIGNATURE (text_of (files two_headers a_ts)) = true /\
  search MIT_LICENSE_PATTERN (text_of (files two_headers a_ts))
    = Some ([], MIT_HEADER ++ CODE) /\
  contains SIGNATURE (data (files (store_of (update_file a_ts two_headers)) a_ts))
  = contains SIGNATURE [] || contains SIGNATURE (MIT_HEADER ++ CODE).
Proof.
  split; [reflexivity|]. split; [reflexivity|].
  split; [vm_compute; reflexivity|]. split; [vm_compute; reflexivity|].
  apply (update_file_signature_after two_headers a_ts [] (MIT_HEADER ++ CODE)).
  - reflexivity.
  - reflexivity.
  - vm_compute. reflexivity.
  - vm_compute. reflexivity.
Defined.

(** X7: a file that [update_file] reports as updated has no carriage
    return left, wherever it had one: the whole content went through text
    mode, which hands out line feeds only, and came back as it was handed
    out. *)
Theorem update_file_true_no_cr (s : fs) (p : path) :
  value_of (update_file p s) = inl true ->
  ~ In CR (data (files (store_of (update_file p s)) p)) /\
  text_of (files (store_of (update_file p s)) p)
  = data (files (store_of (update_file p s)) p).
Proof.
  intro H. destruct (update_file_true_inv _ _ H) as [Hr [Hw [Hs [before [rest E]]]]].
  rewrite (update_file_rewrites _ _ _ _ Hr Hw Hs E).
  unfold store_of. cbn [fst snd]. rewrite data_set_data_same, text_of_set_data_same.
  assert (Hcr : ~ In CR (before ++ REPLACEMENT ++ rest)).
  { destruct (search_found _ _ _ _ E) as [matched [Hx _]].
    assert (H0 : ~ In CR (text_of (files s p))) by apply universal_newlines_no_cr.
    rewrite Hx in H0. apply no_cr_app in H0. destruct H0 as [H1 H2].
    apply no_cr_app in H2. destruct H2 as [_ H2].
    apply no_cr_app. split; [exact H1|]. apply no_cr_app. split; [|exact H2].
    apply replacement_no_cr. }
  split; [exact Hcr|]. apply universal_newlines_id. exact Hcr.
Qed.

Lemma update_file_true_no_cr_witness :
  value_of (update_file a_ts crlf_tail) = inl true /\
  ~ In CR (data (files (store_of (update_file a_ts crlf_tail)) a_ts)) /\
  text_of (files (store_of (update_file a_ts crlf_tail)) a_ts)
  = data (files (store_of (update_file a_ts crlf_tail)) a_ts).
Proof.
  assert (H : value_of (update_file a_ts crlf_tail) = inl true) by (vm_compute; reflexivity).
  split; [exact H|]. apply (update_file_true_no_cr crlf_tail a_ts). exact H.
Defined.

(** ** More on a run of [main] *)

(** The rule of [main]: what holds at the start and is kept by every call
    of [update_file] on a selected file, together with the line printed
    after an update, holds when the summary line is printed. *)
Lemma main_rule (s0 : fs) (I : nat -> fs -> list event -> Prop) :
  I O s0 [] ->
  (forall a n s ev b s' ev',
      I n s ev ->
      should_process_file a = true -> is_regular (files s a) = true ->
      update_file a s = (inl b, s', ev') ->
      I (if b then S n else n) s'
        (ev ++ ev' ++ (if b then [Printed (updated_line a)] else []))) ->
  exists n s' ev,
    main s0 = (inl tt, s', ev ++ [Printed (total_line n)]) /\ I n s' ev.
Proof.
  intros H0 Hstep. unfold main.
  destruct (for_each_rule
              (fun ext updated_count =>
                 (found <- rglob ext ;; for_each found visit updated_count)%io)
              (fun _ n s ev => I n s ev) extensions)
    with (b := O) (s := s0) as [n [s' [ev [Hf HI]]]].
  - intros done ext rest n s ev _ Hi.
    unfold bind at 1. unfold rglob at 1, ret at 1.
    destruct (for_each_rule visit (fun _ n1 s1 ev1 => I n1 s1 (ev ++ ev1))
                (filter (fun p => endswith ext (name p)) (tree s)))
      with (b := n) (s := s) as [n' [s' [ev' [Hf HI]]]].
    + intros done' a rest' n1 s1 ev1 _ Hi1. rewrite visit_run.
      destruct (should_process_file a && is_regular (files s1 a)) eqn:Es.
      * apply andb_true_iff in Es. destruct Es as [Es1 Es2].
        destruct (update_file_effect a s1) as [b [s2 [ev2 [Hu _]]]].
        specialize (Hstep a n1 s1 (ev ++ ev1) b s2 ev2 Hi1 Es1 Es2 Hu).
        rewrite Hu. destruct b.
        -- eexists _, _, _. split; [reflexivity|].
           rewrite <- app_assoc in Hstep. exact Hstep.
        -- eexists _, _, _. split; [reflexivity|].
           rewrite app_nil_r, <- app_assoc in Hstep. exact Hstep.
      * exists n1, s1, []. split; [reflexivity|]. rewrite app_nil_r. exact Hi1.
    + rewrite app_nil_r. exact Hi.
    + exists n', s', ev'. split; [|exact HI]. rewrite Hf. reflexivity.
  - exact H0.
  - exists n, s', ev. split; [|exact HI]. unfold bind at 1. rewrite Hf. reflexivity.
Qed.

(** X8: a run of [main] leaves a file as it is when the file lacks the
    signature phrase, or when the pattern matches nowhere in it, whether
    the run hands it to [update_file] or not, once or more often. *)
Theorem main_leaves_file_without_match (s0 : fs) (p : path) :
  contains SIGNATURE (data (files s0 p)) = false \/
  search MIT_LICENSE_PATTERN (text_of (files s0 p)) = None ->
  files (store_of (main s0)) p = files s0 p.
Proof.
  intro H.
  assert (Hrw : rewritten (text_of (files s0 p)) = None).
  { destruct H as [H|H].
    - apply rewritten_no_signature. unfold text_of. rewrite signature_as_read. exact H.
    - apply rewritten_no_match. exact H. }
  destruct (main_rule s0 (fun _ s _ => files s p = files s0 p))
    as [n [s' [ev [Hm HI]]]].
  - reflexivity.
  - intros a n s ev b s' ev' Hi _ _ Hu.
    destruct (update_file_effect a s) as [b1 [s1 [ev1 [Hu1 E]]]].
    rewrite Hu in Hu1. injection Hu1 as <- <- <-.
    destruct (str_eqb (target s p) (target s a)) eqn:Epa.
    + apply str_eqb_eq in Epa.
      assert (Ha : files s a = files s p) by (unfold files; rewrite Epa; reflexivity).
      assert (Hq : quiet (files s a) = true).
      { unfold quiet. rewrite Ha, Hi, Hrw.
        destruct (read_fault (files s0 p)); reflexivity. }
      destruct (eff_quiet _ _ _ _ _ E Hq) as [-> _]. exact Hi.
    + apply str_eqb_neq in Epa. rewrite (eff_others _ _ _ _ _ E p Epa). exact Hi.
  - rewrite Hm. exact HI.
Qed.

Lemma main_leaves_file_without_match_witness :
  (contains SIGNATURE (data (files phrase_in_code a_ts)) = false \/
   search MIT_LICENSE_PATTERN (text_of (files phrase_in_code a_ts)) = None) /\
  files (store_of (main phrase_in_code)) a_ts = files phrase_in_code a_ts.
Proof.
  assert (H : contains SIGNATURE (data (files phrase_in_code a_ts)) = false \/
              search MIT_LICENSE_PATTERN (text_of (files phrase_in_code a_ts)) = None).
  { right. vm_compute. reflexivity. }
  split; [exact H|]. apply (main_leaves_file_without_match phrase_in_code a_ts). exact H.
Defined.

(** *** Every file once *)




(** The events of one call of [update_file]. *)
Lemma update_file_cases (p : path) (s : fs) :
  exists s',
    update_file p s = (inl false, s', [Read p]) \/
    (exists e, update_file p s = (inl false, s', [Read p; Printed (error_line p e)])) \/
    update_file p s = (inl true, s', [Read p; Written p]) \/
    (exists e, update_file p s
               = (inl false, s', [Read p; Written p; Printed (error_line p e)])).
Proof.
  rewrite update_file_run.
  destruct (read_fault (files s p)) as [e|].
  { eexists. right. left. exists e. reflexivity. }
  destruct (rewritten (text_of (files s p))).
  2:{ eexists. left. reflexivity. }
  destruct (wfault (files s p)) as [|e|e n].
  - eexists. right. right. left. reflexivity.
  - eexists. right. right. right. exists e. reflexivity.
  - eexists. right. right. right. exists e. reflexivity.
Qed.

Lemma error_line_not_is_updated (p : path) (e : str) :
  is_updated_line (error_line p e) = false.
Proof. reflexivity. Qed.

Lemma updated_line_is_updated (p : path) : is_updated_line (updated_line p) = true.
Proof. unfold is_updated_line, updated_line. apply startswith_app. Qed.

(** What a run has counted, printed, read and written. *)
Lemma main_tally (s0 : fs) :
  exists n s' ev,
    main s0 = (inl tt, s', ev ++ [Printed (total_line n)]) /\
    n = List.length (filter is_updated_line (printed ev)) /\
    (n <= List.length (writes ev))%nat /\
    (List.length (printed ev) <= List.length (reads ev))%nat /\
    (forall q, (count_occ (list_eq_dec Z.eq_dec) (writes ev) q
                <= count_occ (list_eq_dec Z.eq_dec) (reads ev) q)%nat).
Proof.
  apply (main_rule s0
           (fun n _ ev =>
              n = List.length (filter is_updated_line (printed ev)) /\
              (n <= List.length (writes ev))%nat /\
              (List.length (printed ev) <= List.length (reads ev))%nat /\
              (forall q, (count_occ (list_eq_dec Z.eq_dec) (writes ev) q
                          <= count_occ (list_eq_dec Z.eq_dec) (reads ev) q)%nat))).
  - repeat split; cbn; intros; lia.
  - intros a n s ev b s' ev' [Hn [Hw [Hp Hc]]] _ _ Hu.
    destruct (update_file_cases a s) as [s1 [H|[[e H]|[H|[e H]]]]];
      rewrite H in Hu; injection Hu as <- <- <-;
      rewrite ?app_nil_r;
      rewrite ?printed_app, ?writes_app, ?reads_app, ?filter_app, ?length_app;
      cbn [printed writes reads filter List.length app];
      rewrite ?error_line_not_is_updated, ?updated_line_is_updated;
      cbn [List.length];
      (split; [lia|]); (split; [lia|]); (split; [lia|]); intro q;
      rewrite ?printed_app, ?writes_app, ?reads_app, ?count_occ_app;
      cbn [printed writes reads count_occ app];
      specialize (Hc q); destruct (list_eq_dec Z.eq_dec a q); cbn [count_occ];
      unfold path, str in *; lia.
Qed.



Lemma count_occ_le_length (l r : list path) :
  (forall q, (count_occ (list_eq_dec Z.eq_dec) l q
              <= count_occ (list_eq_dec Z.eq_dec) r q)%nat) ->
  (List.length l <= List.length r)%nat.
Proof.
  revert r. induction l as [|w l IH]; intros r Hc; [cbn; lia|].
  assert (Hin : In w r).
  { apply (count_occ_In (list_eq_dec Z.eq_dec)). specialize (Hc w).
    cbn [count_occ] in Hc. destruct (list_eq_dec Z.eq_dec w w); [lia|contradiction]. }
  destruct (in_split _ _ Hin) as [r1 [r2 ->]].
  assert (Hle : (List.length l <= List.length (r1 ++ r2))%nat).
  { apply IH. intro q. specialize (Hc q).
    rewrite count_occ_app in *. cbn [count_occ] in Hc.
    destruct (list_eq_dec Z.eq_dec w q); lia. }
  rewrite length_app in *. cbn [List.length]. lia.
Qed.

(** X10: the number in the summary line is the number of the lines
    [Updated: ...] that the run has printed; an error line does not count.
    The run prints at most one line for a file it has read, and counts no
    more updates than it has opened files for writing. *)
Theorem main_counts_updates (s0 : fs) :
  exists n ev,
    events_of (main s0) = ev ++ [Printed (total_line n)] /\
    n = List.length (filter is_updated_line (printed ev)) /\
    (n <= List.length (writes ev))%nat /\
    (List.length (writes ev) <= List.length (candidates s0))%nat /\
    (List.length (printed ev) <= List.length (candidates s0))%nat.
Proof.
  destruct (main_tally s0) as [n [s' [ev [H [Hn [Hw [Hp Hc]]]]]]].
  destruct (main_run s0) as [n2 [s2 [ev2 [H2 P]]]].
  rewrite H in H2. injection H2 as _ H2. apply app_inj_tail in H2. destruct H2 as [<- _].
  exists n, ev. rewrite H. unfold events_of. cbn [snd].
  rewrite <- (reads_seen _ _ _ _ P).
  split; [reflexivity|]. split; [exact Hn|]. split; [exact Hw|]. split; [|exact Hp].
  apply count_occ_le_length. exact Hc.
Qed.

(** ** The texts of the pattern *)

(** X11: [search] finds a match exactly when some stretch of the text is a
    text of the regular expression, whatever the order in which the
    matcher tries its ways, provided that every repeated body reads a
    character, as those of the pattern of the script do. *)
Theorem search_finds_iff (r : regex) (x : str) :
  repeats_read r = true ->
  (search r x <> None <-> exists a m b, x = a ++ m ++ b /\ matches r m).
Proof.
  intro Hr. split.
  - destruct (search r x) as [[before rest]|] eqn:E; [|contradiction]. intros _.
    destruct (search_found_matches _ _ _ _ E) as [m [Hx Hm]].
    exists before, m, rest. split; assumption.
  - intros [a [m [b [-> Hm]]]]. apply search_finds; assumption.
Qed.

Lemma search_finds_iff_witness :
  repeats_read MIT_LICENSE_PATTERN = true /\
  (search MIT_LICENSE_PATTERN (MIT_HEADER ++ CODE) <> None <->
   exists a m b, MIT_HEADER ++ CODE = a ++ m ++ b /\ matches MIT_LICENSE_PATTERN m).
Proof.
  split; [apply pattern_repeats_read|].
  apply (search_finds_iff MIT_LICENSE_PATTERN (MIT_HEADER ++ CODE)).
  apply pattern_repeats_read.
Defined.

(** *** The shape of a header block *)

Lemma matches_seq_inv (r1 r2 : regex) (m : str) :
  matches (Seq r1 r2) m ->
  exists m1 m2, m = m1 ++ m2 /\ matches r1 m1 /\ matches r2 m2.
Proof.
  intro H. inversion H; subst. exists m1, m2. repeat split; assumption.
Qed.

Lemma matches_chr_inv (c : Z) (m : str) : matches (Chr c) m -> m = [c].
Proof. intro H. inversion H. reflexivity. Qed.

Lemma matches_eps_inv (m : str) : matches Eps m -> m = [].
Proof. intro H. inversion H. reflexivity. Qed.

(** A literal run of the pattern matches itself only. *)
Lemma matches_chrs_inv (l m : str) : matches (cat (map Chr l)) m -> m = l.
Proof.
  revert m. induction l as [|c l IH]; intros m H; cbn [cat map fold_right] in H.
  - apply matches_eps_inv. exact H.
  - apply matches_seq_inv in H. destruct H as [m1 [m2 [-> [H1 H2]]]].
    apply matches_chr_inv in H1. subst m1. rewrite (IH m2 H2). reflexivity.
Qed.

Lemma matches_lit_inv (x : string) (m : str) : matches (lit x) m -> m = text x.
Proof. apply matches_chrs_inv. Qed.

(** A repeated class of characters matches characters of the class, as
    many as the bounds allow. *)
Lemma matches_repeat_cls_inv (lo : nat) (hi : option nat) (greedy : bool)
    (p : Z -> bool) (m : str) :
  matches (Repeat lo hi greedy (Cls p)) m ->
  forallb p m = true /\
  (lo <= List.length m)%nat /\
  (forall h, hi = Some h -> (List.length m <= Nat.max lo h)%nat).
Proof.
  intro H. remember (Repeat lo hi greedy (Cls p)) as r eqn:Er.
  revert lo hi Er.
  induction H as [| | | | |hi' greedy' r'|lo' hi' greedy' r' m1 m2 Hside H1 _ H2 IH2];
    intros lo0 hi0 Er; try discriminate.
  - injection Er as <- <- <- ->. cbn. repeat split; intros; lia.
  - injection Er as -> -> -> ->.
    inversion H1; subst. cbn [app forallb List.length].
    destruct (IH2 _ _ eq_refl) as [Hall [Hlo Hhi]].
    split; [rewrite Hall; apply andb_true_iff; split; [assumption|reflexivity]|].
    split; [lia|]. intros h ->. specialize (Hhi (Nat.pred h) eq_refl).
    destruct lo0 as [|lo0].
    + destruct h as [|h]; [exfalso; exact (Hside eq_refl eq_refl)|]. cbn in *. lia.
    + cbn [Nat.pred] in Hhi. lia.
Qed.

Lemma matches_ws_inv (m : str) : matches ws m -> forallb isspace m = true.
Proof. intro H. apply matches_repeat_cls_inv in H. apply H. Qed.

(** X12: every block that [search] finds with the pattern of the script,
    and that [update_file] so replaces, begins with the opening of a
    documentation comment, has the copyright line with a year of four
    decimal digits and the one name, then a line with an asterisk only,
    and ends with the close of the comment, white space and a line
    feed. *)
Theorem matched_block_shape (x before rest : str) :
  search MIT_LICENSE_PATTERN x = Some (before, rest) ->
  exists w1 w2 w3 year w4 w5 w6 body w7 w8,
    x = before
        ++ (text "/**" ++ w1 ++ [LF] ++ w2 ++ text "*" ++ w3
            ++ text "Copyright (c) " ++ year ++ text " Philip L. Giacalone"
            ++ w4 ++ [LF] ++ w5 ++ text "*" ++ w6 ++ [LF]
            ++ body ++ w7 ++ text "*/" ++ w8 ++ [LF])
        ++ rest /\
    forallb isspace (w1 ++ w2 ++ w3 ++ w4 ++ w5 ++ w6 ++ w7 ++ w8) = true /\
    List.length year = 4%nat /\
    forallb isdecimal year = true.
Proof.
  intro H. destruct (search_found_matches _ _ _ _ H) as [m [-> Hmat]].
  unfold MIT_LICENSE_PATTERN in Hmat. cbn [cat fold_right] in Hmat.
  repeat match type of Hmat with
         | matches (Seq _ _) _ =>
             let m1 := fresh "m" in
             let H1 := fresh "Hm" in
             apply matches_seq_inv in Hmat;
             destruct Hmat as [m1 [? [-> [H1 Hmat]]]]
         end.
  apply matches_eps_inv in Hmat. subst.
  repeat match goal with
         | H : matches (lit _) _ |- _ => apply matches_lit_inv in H; subst
         | H : matches nl _ |- _ => apply matches_chr_inv in H; subst
         | H : matches ws _ |- _ => apply matches_ws_inv in H
         | H : matches (Repeat 4 _ _ (Cls _)) _ |- _ =>
             apply matches_repeat_cls_inv in H; destruct H as [? [? ?]]
         end.
  match goal with
  | Hb : matches (lazy_star _) ?b,
    Hy : forallb isdecimal ?yr = true,
    Hlo : (4 <= List.length ?yr)%nat,
    Hhi : forall h, Some 4%nat = Some h -> _ |- _ =>
      match goal with
      | |- context [text "/**" ++ ?a1 ++ [LF] ++ ?a2 ++ text "*" ++ ?a3 ++ _ ++ yr ++ _
                    ++ ?a4 ++ [LF] ++ ?a5 ++ text "*" ++ ?a6 ++ [LF] ++ b
                    ++ ?a7 ++ text "*/" ++ ?a8 ++ [LF] ++ []] =>
          exists a1, a2, a3, yr, a4, a5, a6, b, a7, a8;
          split; [rewrite app_nil_r; reflexivity|];
          split; [|split; [specialize (Hhi 4%nat eq_refl); lia|exact Hy]]
      end
  end.
  rewrite !forallb_app.
  repeat match goal with
         | H : forallb isspace _ = true |- _ => rewrite H; clear H
         end.
  reflexivity.
Qed.

Lemma matched_block_shape_witness :
  search MIT_LICENSE_PATTERN (MIT_HEADER ++ CODE) = Some ([], CODE) /\
  exists w1 w2 w3 year w4 w5 w6 body w7 w8,
    MIT_HEADER ++ CODE
    = []
        ++ (text "/**" ++ w1 ++ [LF] ++ w2 ++ text "*" ++ w3
            ++ text "Copyright (c) " ++ year ++ text " Philip L. Giacalone"
            ++ w4 ++ [LF] ++ w5 ++ text "*" ++ w6 ++ [LF]
            ++ body ++ w7 ++ text "*/" ++ w8 ++ [LF])
        ++ CODE /\
    forallb isspace (w1 ++ w2 ++ w3 ++ w4 ++ w5 ++ w6 ++ w7 ++ w8) = true /\
    List.length year = 4%nat /\
    forallb isdecimal year = true.
Proof.
  assert (H : search MIT_LICENSE_PATTERN (MIT_HEADER ++ CODE) = Some ([], CODE))
    by (vm_compute; reflexivity).
  split; [exact H|]. apply (matched_block_shape (MIT_HEADER ++ CODE) [] CODE). exact H.
Defined.

(** *** Headers that are found *)

Lemma matches_chrs (l : str) : matches (cat (map Chr l)) l.
Proof.
  induction l as [|c l IH]; cbn [cat map fold_right]; [constructor|].
  change (c :: l) with ([c] ++ l). constructor; [constructor|exact IH].
Qed.

Lemma matches_lit (x : string) : matches (lit x) (text x).
Proof. apply matches_chrs. Qed.

Lemma matches_ws_nil : matches ws [].
Proof. constructor. Qed.

Lemma matches_ws_space : matches ws (text " ").
Proof.
  change (text " ") with ([32] ++ []). apply matches_again; [discriminate| |constructor].
  constructor. reflexivity.
Qed.

Lemma matches_any (l : str) : matches (lazy_star (Cls anychar)) l.
Proof.
  induction l as [|c l IH]; [constructor|].
  change (c :: l) with ([c] ++ l). apply matches_again; [discriminate| |exact IH].
  constructor. reflexivity.
Qed.

Lemma matches_year (year : str) :
  List.length year = 4%nat -> forallb isdecimal year = true ->
  matches (Repeat 4 (Some 4%nat) true (Cls isdecimal)) year.
Proof.
  intros Hl Hd.
  destruct year as [|d1 [|d2 [|d3 [|d4 [|d5 year]]]]]; try discriminate.
  cbn [forallb] in Hd.
  repeat match goal with
         | H : _ && _ = true |- _ => apply andb_true_iff in H; destruct H
         end.
  change [d1; d2; d3; d4] with ([d1] ++ [d2] ++ [d3] ++ [d4] ++ []).
  repeat (apply matches_again; [discriminate|constructor; assumption|]; cbn [Nat.pred hi_pred]).
  constructor.
Qed.

Lemma matches_comment_lines (lines : list str) :
  matches (lazy_star (Group (cat [ ws; lit "*"; lazy_star (Cls anychar); nl ])))
          (flat_map (fun l => text " *" ++ l ++ [LF]) lines).
Proof.
  induction lines as [|l lines IH]; cbn [flat_map]; [constructor|].
  apply matches_again; [discriminate| |exact IH].
  constructor. cbn [cat fold_right].
  change (text " *" ++ l ++ [LF]) with (text " " ++ text "*" ++ l ++ [LF] ++ []).
  constructor; [apply matches_ws_space|].
  constructor; [apply matches_lit|].
  constructor; [apply matches_any|].
  constructor; [constructor|constructor].
Qed.

(** A header block in its usual layout is a text of the pattern. *)
Lemma matches_usual_header (year : str) (lines : list str) :
  List.length year = 4%nat -> forallb isdecimal year = true ->
  matches MIT_LICENSE_PATTERN (usual_header year lines).
Proof.
  intros Hl Hd. unfold MIT_LICENSE_PATTERN, usual_header. cbn [cat fold_right].
  replace (text "/**" ++ [LF]
           ++ text " * Copyright (c) " ++ year ++ text " Philip L. Giacalone" ++ [LF]
           ++ text " *" ++ [LF]
           ++ flat_map (fun l => text " *" ++ l ++ [LF]) lines
           ++ text " */" ++ [LF])
    with (text "/**" ++ [] ++ [LF] ++ text " " ++ text "*" ++ text " "
          ++ text "Copyright (c) " ++ year ++ text " Philip L. Giacalone"
          ++ [] ++ [LF] ++ text " " ++ text "*" ++ [] ++ [LF]
          ++ flat_map (fun l => text " *" ++ l ++ [LF]) lines
          ++ text " " ++ text "*/" ++ [] ++ [LF] ++ [])
    by (cbn [app]; repeat (rewrite <- ?app_assoc; cbn [app]; f_equal);
        rewrite <- !app_assoc; reflexivity).
  repeat first
    [ apply matches_eps
    | apply matches_seq;
      [ first [ apply matches_lit | apply matches_ws_nil | apply matches_ws_space
              | apply matches_chr | apply matches_year; assumption
              | apply matches_comment_lines ] | ] ].
Qed.

(** X13: [update_file] rewrites, and answers [True] on, every file that it
    can read and write which has the signature phrase and, somewhere, a
    header block in its usual layout with a year of four decimal digits,
    whatever the comment lines of the block are. *)
Theorem update_file_finds_usual_header (s : fs) (p : path)
    (a b year : str) (lines : list str) :
  read_fault (files s p) = None ->
  wfault (files s p) = NoFault ->
  text_of (files s p) = a ++ usual_header year lines ++ b ->
  contains SIGNATURE (text_of (files s p)) = true ->
  List.length year = 4%nat ->
  forallb isdecimal year = true ->
  value_of (update_file p s) = inl true.
Proof.
  intros Hr Hw Ht Hs Hl Hd.
  destruct (search MIT_LICENSE_PATTERN (text_of (files s p))) as [[before rest]|] eqn:E.
  - rewrite (update_file_rewrites _ _ _ _ Hr Hw Hs E). reflexivity.
  - exfalso. rewrite Ht in E. revert E.
    apply search_finds; [apply pattern_repeats_read|].
    apply matches_usual_header; assumption.
Qed.

Lemma update_file_finds_usual_header_witness :
  read_fault (files header_mid_file a_ts) = None /\
  wfault (files header_mid_file a_ts) = NoFault /\
  text_of (files header_mid_file a_ts)
  = NOTE
    ++ usual_header (text "2023")
         [text " Permission is hereby granted, free of charge, to any person"]
    ++ CODE /\
  contains SIGNATURE (text_of (files header_mid_file a_ts)) = true /\
  value_of (update_file a_ts header_mid_file) = inl true.
Proof.
  assert (Ht : text_of (files header_mid_file a_ts)
               = NOTE
                 ++ usual_header (text "2023")
                      [text " Permission is hereby granted, free of charge, to any person"]
                 ++ CODE) by (vm_compute; reflexivity).
  assert (Hs : contains SIGNATURE (text_of (files header_mid_file a_ts)) = true)
    by (vm_compute; reflexivity).
  split; [reflexivity|]. split; [reflexivity|]. split; [exact Ht|]. split; [exact Hs|].
  apply (update_file_finds_usual_header header_mid_file a_ts NOTE CODE (text "2023")
           [text " Permission is hereby granted, free of charge, to any person"]).
  - reflexivity.
  - reflexivity.
  - exact Ht.
  - exact Hs.
  - reflexivity.
  - vm_compute. reflexivity.
Defined.

(** ** What a run changes *)

Lemma update_file_written_or_same (a q : path) (s : fs) :
  In a (writes (events_of (update_file a s))) /\ target s a = target s q \/
  files (store_of (update_file a s)) q = files s q.
Proof.
  rewrite update_file_run. unfold events_of, store_of.
  destruct (read_fault (files s a)); [right; reflexivity|].
  destruct (rewritten (text_of (files s a))); [|right; reflexivity].
  destruct (str_eqb (target s q) (target s a)) eqn:E.
  - apply str_eqb_eq in E.
    destruct (wfault (files s a)); cbn [fst snd writes];
      [left; split; [left; reflexivity|symmetry; exact E]
      | right; reflexivity
      | left; split; [left; reflexivity|symmetry; exact E]].
  - apply str_eqb_neq in E. right.
    destruct (wfault (files s a)); cbn [fst snd];
      [apply files_set_data_other; exact E | reflexivity
      | apply files_set_data_other; exact E].
Qed.

(** X14: a run of [main] changes a file only by writing to it: what a
    path holds after the run is what it held before, unless the run has
    opened for writing that path or another path that names the same
    file. *)
Theorem main_changes_written_files_only (s0 : fs) (p : path) :
  (exists q, In q (writes (events_of (main s0))) /\ target s0 q = target s0 p) \/
  files (store_of (main s0)) p = files s0 p.
Proof.
  destruct (main_rule s0
              (fun _ s ev =>
                 (forall q, target s q = target s0 q) /\
                 ((exists q, In q (writes ev) /\ target s0 q = target s0 p) \/
                  files s p = files s0 p)))
    as [n [s' [ev [Hm [Ht HI]]]]].
  - split; [reflexivity|]. right. reflexivity.
  - intros a n s ev b s' ev' [Ht Hi] _ _ Hu.
    pose proof (update_file_written_or_same a p s) as Hw.
    destruct (update_file_effect a s) as [b1 [s1 [ev1 [Hu1 E]]]].
    rewrite Hu in Hu1. injection Hu1 as <- <- <-.
    rewrite Hu in Hw. unfold events_of, store_of in Hw. cbn [fst snd] in Hw.
    split; [intro q; rewrite (eff_target _ _ _ _ _ E q); apply Ht|].
    destruct Hi as [[q [Hq Hqt]]|Hi].
    + left. exists q. split; [|exact Hqt].
      rewrite writes_app, in_app_iff. left. exact Hq.
    + destruct Hw as [[Hw Hwt]|Hw].
      * left. exists a. split.
        -- rewrite !writes_app, !in_app_iff. right. left. exact Hw.
        -- rewrite <- !Ht. exact Hwt.
      * right. congruence.
  - rewrite Hm. unfold store_of, events_of. cbn [fst snd].
    destruct HI as [[q [Hq Hqt]]|HI]; [left|right; exact HI].
    exists q. split; [|exact Hqt]. rewrite writes_app, in_app_iff. left. exact Hq.
Qed.

(** ** The end of the replaced block *)

Lemma run_cls_cons (p : Z -> bool) (c : Z) (x : str) (k : str -> option str) :
  run (Cls p) (c :: x) k = if p c then k x else None.
Proof. reflexivity. Qed.

(** A greedy run over a class of characters that fails has failed after
    every stretch of the class. *)
Lemma greedy_none (p : Z -> bool) (k : str -> option str) (m : str) :
  forall fuel y,
    (List.length (m ++ y) < fuel)%nat ->
    rep (run (Cls p)) 0 None true fuel (m ++ y) k = None ->
    forallb p m = true -> k y = None.
Proof.
  induction m as [|c m IH]; intros fuel y Hf H Hp;
    (destruct fuel as [|fuel]; [cbn in Hf; lia|]); cbn [rep app] in H.
  - unfold orelse in H.
    destruct (run (Cls p) y _); [discriminate|exact H].
  - cbn [forallb] in Hp. apply andb_true_iff in Hp. destruct Hp as [Hc Hp].
    rewrite run_cls_cons, Hc in H. cbn [Nat.pred hi_pred] in H. unfold orelse in H.
    destruct (rep (run (Cls p)) 0 None true fuel (m ++ y) k) eqn:E; [discriminate|].
    apply (IH fuel y); [cbn in Hf; lia|exact E|exact Hp].
Qed.

(** A greedy run over a class of characters stops after the longest
    stretch of the class behind which the rest of the pattern matches. *)
Lemma greedy_longest (p : Z -> bool) (k : str -> option str) (x : str) :
  forall fuel res,
    (List.length x < fuel)%nat ->
    rep (run (Cls p)) 0 None true fuel x k = Some res ->
    exists m y,
      x = m ++ y /\ forallb p m = true /\ k y = Some res /\
      forall c m2 y2, y = c :: m2 ++ y2 -> forallb p (c :: m2) = true -> k y2 = None.
Proof.
  induction x as [|c x IH]; intros fuel res Hf H;
    (destruct fuel as [|fuel]; [cbn in Hf; lia|]); cbn [rep] in H.
  - cbn [run] in H. unfold orelse in H.
    exists [], []. split; [reflexivity|]. split; [reflexivity|].
    split; [exact H|]. intros c m2 y2 E. discriminate.
  - rewrite run_cls_cons in H. cbn [Nat.pred hi_pred] in H. unfold orelse in H.
    destruct (p c) eqn:Hc.
    + destruct (rep (run (Cls p)) 0 None true fuel x k) as [r|] eqn:E.
      * injection H as ->. destruct (IH fuel res) as [m [y [-> [Hm [Hk Hmax]]]]];
          [cbn in Hf; lia|exact E|].
        exists (c :: m), y. split; [reflexivity|].
        split; [cbn [forallb]; rewrite Hc, Hm; reflexivity|]. split; assumption.
      * exists [], (c :: x). split; [reflexivity|]. split; [reflexivity|].
        split; [exact H|]. intros c' m2 y2 Ey Hp. injection Ey as <- ->.
        cbn [forallb] in Hp. apply andb_true_iff in Hp. destruct Hp as [_ Hp].
        apply (greedy_none p k m2 fuel y2); [cbn in Hf; lia|exact E|exact Hp].
    + exists [], (c :: x). split; [reflexivity|]. split; [reflexivity|].
      split; [exact H|]. intros c' m2 y2 Ey Hp. injection Ey as <- ->.
      cbn [forallb] in Hp. rewrite Hc in Hp. discriminate.
Qed.

(** A match of a list of regular expressions ends with a match of its
    last ones. *)
Lemma run_cat_app (rs rs' : list regex) (x : str) (k : str -> option str) (res : str) :
  run (cat (rs ++ rs')) x k = Some res ->
  exists y, run (cat rs') y k = Some res.
Proof.
  revert x. induction rs as [|r rs IH]; intros x H.
  - exists x. exact H.
  - cbn [app cat fold_right run] in H. apply run_sound in H.
    destruct H as [y [_ H]]. exact (IH y H).
Qed.

(** X15: the block that is replaced takes with it the blank lines that
    follow the close of the comment: the text that is kept after the
    block never begins with a line of white space only. *)
Theorem kept_text_starts_no_blank_line (x before rest w r : str) :
  search MIT_LICENSE_PATTERN x = Some (before, rest) ->
  rest = w ++ LF :: r ->
  forallb isspace w = false.
Proof.
  intros H Hrest. destruct (search_found _ _ _ _ H) as [matched [_ [Hm _]]].
  unfold match_here, MIT_LICENSE_PATTERN in Hm.
  match type of Hm with
  | run (cat ?l) _ _ = _ => change l with (firstn 18 l ++ skipn 18 l) in Hm
  end.
  apply run_cat_app in Hm. destruct Hm as [y Hm].
  cbn [skipn cat fold_right] in Hm. unfold ws at 1, star in Hm.
  cbn [run Nat.add] in Hm.
  apply greedy_longest in Hm; [|lia].
  destruct Hm as [m [y1 [_ [_ [Hk Hmax]]]]].
  unfold nl in Hk, Hmax. destruct y1 as [|d y1]; cbn [run] in Hk; [discriminate|].
  destruct (d =? LF) eqn:Ed; [|discriminate].
  apply Z.eqb_eq in Ed. subst d. injection Hk as ->.
  destruct (forallb isspace w) eqn:Hw; [|reflexivity].
  specialize (Hmax LF w (LF :: r)). rewrite Hrest in Hmax.
  assert (Hnone : run (Chr LF) (LF :: r) (fun x' => Some x') = None).
  { apply Hmax; [reflexivity|]. cbn [forallb]. rewrite Hw. reflexivity. }
  cbn [run] in Hnone. rewrite Z.eqb_refl in Hnone. discriminate.
Qed.

Lemma kept_text_starts_no_blank_line_witness :
  search MIT_LICENSE_PATTERN (MIT_HEADER ++ [LF; 32; LF] ++ CODE) = Some ([], CODE) /\
  CODE = text "export const x = 1;" ++ LF :: [] /\
  forallb isspace (text "export const x = 1;") = false.
Proof.
  assert (H : search MIT_LICENSE_PATTERN (MIT_HEADER ++ [LF; 32; LF] ++ CODE)
              = Some ([], CODE)) by (vm_compute; reflexivity).
  split; [exact H|]. split; [reflexivity|].
  apply (kept_text_starts_no_blank_line (MIT_HEADER ++ [LF; 32; LF] ++ CODE) [] CODE
           (text "export const x = 1;") []).
  - exact H.
  - reflexivity.
Defined.
